(** * Mandelbrot_GPU: a shallow embedding of [mandelbrot.cpp]

    The program computes, for every pixel of an 800x600 raster, an escape-time
    count on an OpenCL device, colours it through a precomputed palette and
    shows the result, with pan and zoom driven by key events.

    Floating-point values are IEEE 754 binary floats in the representation of
    the Standard Library's [SpecFloat] (round to nearest, ties to even), at the
    precision the source gives each expression:
    - [float] is binary32 on the host and on the device;
    - [long double] (the palette and the zoom factor [1.05L]) is a parameter
      [long_double] of the host ABI: x87 extended, binary64 or binary128;
    - an unsuffixed literal of the OpenCL kernel ([3.5], [2.0], [4.0]) is a
      [double] on a device with the fp64 feature and a [float] on one without:
      the flag [fp64] of the device says which.
    Expressions are evaluated operation by operation, without contraction. *)

From Stdlib Require Import ZArith Bool List Lia.
From Stdlib Require Import Floats.SpecFloat.
From stdpp Require Import base option list.

Local Open Scope Z_scope.

(** ** IEEE 754 formats and the operations the source uses *)

Module IEEE.

Record format := Format { prec : Z; emax : Z }.

Definition binary32 := Format 24 128.
Definition binary64 := Format 53 1024.
Definition x87_extended := Format 64 16384.
Definition binary128 := Format 113 16384.

Definition add (f : format) := SFadd (prec f) (emax f).
Definition sub (f : format) := SFsub (prec f) (emax f).
Definition mul (f : format) := SFmul (prec f) (emax f).
Definition div (f : format) := SFdiv (prec f) (emax f).

(** [x > y]; false as soon as one side is a NaN. Both sides are values of
    one format. *)
Definition gt (x y : spec_float) : bool := SFltb y x.

(** Conversion of an integer to format [f]. *)
Definition of_Z (f : format) (n : Z) : spec_float :=
  binary_normalize (prec f) (emax f) n 0 false.

(** Conversion of a floating-point value to format [f] (a C cast or an
    implicit conversion): rounds when [f] is narrower, renormalises when it
    is wider. *)
Definition convert (f : format) (x : spec_float) : spec_float :=
  match x with
  | S754_finite s m e => binary_round (prec f) (emax f) s m e
  | _ => x
  end.

(** The decimal literal [(-1)^s * n / 10^k], correctly rounded to [f]. *)
Definition decimal (f : format) (s : bool) (n : positive) (k : nat) : spec_float :=
  div f (S754_finite s n 0) (S754_finite false (Z.to_pos (10 ^ Z.of_nat k)) 0).

End IEEE.

(** The binary32 values 0.0, 2.0 and 6.0. *)
Definition f32_zero : spec_float := S754_zero false.
Definition f32_two : spec_float := S754_finite false 8388608 (-22).
Definition f32_six : spec_float := S754_finite false 12582912 (-21).

(** ** Arrays and loops *)

(** Array accesses are checked: an index out of range is undefined behaviour
    in the source and [None] here. *)
Definition load {A} (l : list A) (i : Z) : option A :=
  if (0 <=? i) && (i <? Z.of_nat (length l)) then l !! Z.to_nat i else None.

Definition store {A} (l : list A) (i : Z) (v : A) : option (list A) :=
  if (0 <=? i) && (i <? Z.of_nat (length l)) then Some (<[Z.to_nat i := v]> l) else None.

(** [for (int i = lo; i < hi; i++) body], in the error monad. *)
Fixpoint for_range {T} (n : nat) (i : Z) (body : Z -> T -> option T) (s : T) : option T :=
  match n with
  | O => Some s
  | S n' => s' ← body i s; for_range n' (i + 1) body s'
  end.

Definition for_loop {T} (lo hi : Z) (body : Z -> T -> option T) (s : T) : option T :=
  for_range (Z.to_nat (hi - lo)) lo body s.

(** ** The OpenCL kernel [mandelbrot] (lines 60-91) *)

Module Kernel.
Import IEEE.

Record uchar3 := Uchar3 { s0 : Z; s1 : Z; s2 : Z }.

(** Conversion of an [int] to [uchar]. *)
Definition to_uchar (n : Z) : Z := n mod 256.

(** [(uchar3)(n % 256, n % 256, n % 256)] for an [int] [n]. *)
Definition pack (n : Z) : uchar3 :=
  Uchar3 (to_uchar (Z.rem n 256)) (to_uchar (Z.rem n 256)) (to_uchar (Z.rem n 256)).

(** Registers of the escape loop: [zx], [zy] and the counter [iter]. *)
Record regs := Regs { zx : spec_float; zy : spec_float; iter : Z }.

(** How one evaluation of the loop head and body ends. *)
Inductive pass :=
| Next (r : regs)      (* the body ran to its end; [iter] was incremented *)
| Escaped (r : regs)   (* [break]: the squared modulus exceeded 4.0 *)
| Exhausted (r : regs) (* the guard [iter < max_iter] was false *).

(** Why the loop was left. *)
Inductive exit := ByEscape | ByBound.

Section Device.
(** Whether the device gives unsuffixed literals the type [double]. *)
Variable fp64 : bool.

Definition lit : format := if fp64 then binary64 else binary32.

Definition lit_3_5 : spec_float := decimal lit false 35 1.
Definition lit_2_0 : spec_float := decimal lit false 20 1.
Definition lit_4_0 : spec_float := decimal lit false 40 1.
Definition lit_0_0 : spec_float := S754_zero false.

(** [float s = a / extent / zoom;] with [a] a literal, [extent] an [int]
    and [zoom] a [float]: the quotient is taken in the literal's type and
    stored as a [float]. *)
Definition scale (a : spec_float) (extent : Z) (zoom : spec_float) : spec_float :=
  convert binary32 (div lit (div lit a (of_Z lit extent)) (convert lit zoom)).

(** [float c = (p - extent/2) * s + offset;] with [p], [extent] of type
    [int]: the difference is an [int], converted to [float]. *)
Definition coord (p extent : Z) (s offset : spec_float) : spec_float :=
  add binary32 (mul binary32 (of_Z binary32 (p - Z.quot extent 2)) s) offset.

Definition cx_of (x width : Z) (offsetX zoom : spec_float) : spec_float :=
  coord x width (scale lit_3_5 width zoom) offsetX.

Definition cy_of (y height : Z) (offsetY zoom : spec_float) : spec_float :=
  coord y height (scale lit_2_0 height zoom) offsetY.

Definition init : regs := Regs (convert binary32 lit_0_0) (convert binary32 lit_0_0) 0.

(** One evaluation of [while (iter < max_iter) { ... }] from registers [r]
    (lines 79-88). *)
Definition loop_pass (cx cy : spec_float) (max_iter : Z) (r : regs) : pass :=
  if iter r <? max_iter then
    let zx2 := mul binary32 (zx r) (zx r) in
    let zy2 := mul binary32 (zy r) (zy r) in
    if gt (convert lit (add binary32 zx2 zy2)) lit_4_0 then Escaped r
    else
      let tmp := add binary32 (sub binary32 zx2 zy2) cx in
      let zy' :=
        convert binary32
          (add lit (mul lit (mul lit lit_2_0 (convert lit (zx r))) (convert lit (zy r)))
               (convert lit cy)) in
      Next (Regs tmp zy' (iter r + 1))
  else Exhausted r.

(** The loop, run for at most [fuel] evaluations of its head; [None] when
    the fuel does not suffice. The second component counts the passes
    through the body. *)
Fixpoint run_loop (fuel : nat) (cx cy : spec_float) (max_iter : Z) (r : regs)
  : option (exit * regs * nat) :=
  match fuel with
  | O => None
  | S k =>
      match loop_pass cx cy max_iter r with
      | Next r' =>
          match run_loop k cx cy max_iter r' with
          | Some (why, r'', n) => Some (why, r'', S n)
          | None => None
          end
      | Escaped r' => Some (ByEscape, r', O)
      | Exhausted r' => Some (ByBound, r', O)
      end
  end.

(** The loop from its initial registers, with fuel for [max_iter] passes
    and the evaluation of the head that leaves it. *)
Definition escape_loop (cx cy : spec_float) (max_iter : Z) : option (exit * regs * nat) :=
  run_loop (S (Z.to_nat max_iter)) cx cy max_iter init.

(** The value of [iter] when the loop is left, for work-item [(x, y)] of a
    [width] x [height] range. *)
Definition mandelbrot_iter (x y width height : Z)
    (offsetX offsetY zoom : spec_float) (max_iter : Z) : option Z :=
  match escape_loop (cx_of x width offsetX zoom) (cy_of y height offsetY zoom) max_iter with
  | Some (_, r, _) => Some (iter r)
  | None => None
  end.

(** The whole kernel for work-item [(x, y)]: line 90 stores the counter,
    reduced by [% 256] and converted to [uchar], in the three components
    of [output[y * width + x]]. *)
Definition mandelbrot (output : list uchar3) (x y width height : Z)
    (offsetX offsetY zoom : spec_float) (max_iter : Z) : option (list uchar3) :=
  n ← mandelbrot_iter x y width height offsetX offsetY zoom max_iter;
  store output (y * width + x) (pack n).
End Device.
End Kernel.

(** ** The host program *)

Definition WIDTH : Z := 800.
Definition HEIGHT : Z := 600.
Definition MAX_ITER : Z := 800.

(** A [std::tuple<uint8_t, uint8_t, uint8_t>]; a byte is a [Z] in [0, 256). *)
Definition rgb : Type := Z * Z * Z.

(** The ABI's [long double]. *)
Inductive long_double := X87 | Double | Quad.

Definition ld_format (a : long_double) : IEEE.format :=
  match a with
  | X87 => IEEE.x87_extended
  | Double => IEEE.binary64
  | Quad => IEEE.binary128
  end.

(** *** The palette: [initColorTable] (lines 30-38) *)

Module Palette.
Import IEEE.

(** The integral part of a finite value, rounded toward zero. *)
Definition trunc (x : spec_float) : option Z :=
  match x with
  | S754_zero _ => Some 0
  | S754_finite s m e =>
      let a := if 0 <=? e then Z.pos m * 2 ^ e else Z.pos m / 2 ^ (- e) in
      Some (if s then - a else a)
  | _ => None
  end.

(** [static_cast<uint8_t>(x)]: defined when the truncated value is a
    [uint8_t]. *)
Definition to_uint8 (x : spec_float) : option Z :=
  n ← trunc x; if (0 <=? n) && (n <? 256) then Some n else None.

Section ABI.
Variable a : long_double.
Let ld := ld_format a.

(** The body of the loop, lines 32-35, for one value of [iter]. *)
Definition color (it : Z) : option rgb :=
  let t := div ld (of_Z ld it) (of_Z ld MAX_ITER) in
  let u := sub ld (of_Z ld 1) t in
  let k255 := of_Z ld 255 in
  r ← to_uint8 (mul ld (mul ld (mul ld (mul ld (mul ld (of_Z ld 9) u) t) t) t) k255);
  g ← to_uint8 (mul ld (mul ld (mul ld (mul ld (mul ld (of_Z ld 15) u) u) t) t) k255);
  b ← to_uint8 (mul ld (mul ld (mul ld (mul ld (mul ld
         (convert ld (decimal binary64 false 85 1)) u) u) u) t) k255);
  Some (r, g, b).

Definition initColorTable (colorTable : list rgb) : option (list rgb) :=
  for_loop 0 (MAX_ITER + 1)
    (fun it tbl => c ← color it; store tbl it c) colorTable.
End ABI.

(** The global [colorTable] before [main] runs: [MAX_ITER + 1]
    value-initialised tuples. *)
Definition colorTable0 : list rgb := replicate (Z.to_nat (MAX_ITER + 1)) (0, 0, 0).
End Palette.

(** *** Program state *)

(** The globals of the program, the vector [image] of [main], and the
    threads that [generateMandelbrotAsync] has detached and that have not run
    yet. *)
Record state := State {
  colorTable : list rgb;
  offsetX : spec_float;
  offsetY : spec_float;
  zoom : spec_float;
  needsRedraw : bool;
  isGenerating : bool;
  image : list Z;
  detached : nat
}.

Definition set_offsetX (v : spec_float) (st : state) : state :=
  State (colorTable st) v (offsetY st) (zoom st) (needsRedraw st)
        (isGenerating st) (image st) (detached st).

Definition set_offsetY (v : spec_float) (st : state) : state :=
  State (colorTable st) (offsetX st) v (zoom st) (needsRedraw st)
        (isGenerating st) (image st) (detached st).

Definition set_zoom (v : spec_float) (st : state) : state :=
  State (colorTable st) (offsetX st) (offsetY st) v (needsRedraw st)
        (isGenerating st) (image st) (detached st).

Definition set_needsRedraw (v : bool) (st : state) : state :=
  State (colorTable st) (offsetX st) (offsetY st) (zoom st) v
        (isGenerating st) (image st) (detached st).

Definition set_isGenerating (v : bool) (st : state) : state :=
  State (colorTable st) (offsetX st) (offsetY st) (zoom st) (needsRedraw st)
        v (image st) (detached st).

Definition set_image (v : list Z) (st : state) : state :=
  State (colorTable st) (offsetX st) (offsetY st) (zoom st) (needsRedraw st)
        (isGenerating st) v (detached st).

Definition set_detached (v : nat) (st : state) : state :=
  State (colorTable st) (offsetX st) (offsetY st) (zoom st) (needsRedraw st)
        (isGenerating st) (image st) v.

(** The initialisers of lines 18-21 and 28; [image] is the zero-filled
    vector of line 154. *)
Definition offsetX0 : spec_float :=
  IEEE.convert IEEE.binary32 (IEEE.decimal IEEE.binary64 true 705922586560551705765 21).
Definition offsetY0 : spec_float :=
  IEEE.convert IEEE.binary32 (IEEE.decimal IEEE.binary64 true 267652025962102419929 21).
Definition zoom0 : spec_float :=
  IEEE.convert IEEE.binary32 (IEEE.decimal IEEE.binary64 false 5 1).

Definition initial (tbl : list rgb) : state :=
  State tbl offsetX0 offsetY0 zoom0 false false
        (replicate (Z.to_nat (WIDTH * HEIGHT * 3)) 0) 0.

(** *** Generation: [generateMandelbrot] (lines 104-129) *)

(** What the OpenCL runtime contributes to one call: the literal type of the
    device, the order in which the work-items of the range run, and the
    contents of the freshly created buffer. *)
Record dispatch := Dispatch {
  fp64 : bool;
  schedule : list (Z * Z);
  fresh : list Kernel.uchar3
}.

(** Every work-item of the [w] x [h] range runs, and no other. *)
Definition covers (w h : Z) (sched : list (Z * Z)) : Prop :=
  forall x y, (x, y) ∈ sched <-> (0 <= x < w /\ 0 <= y < h).

Definition well_formed (d : dispatch) : Prop :=
  covers WIDTH HEIGHT (schedule d) /\ Z.of_nat (length (fresh d)) = WIDTH * HEIGHT.

(** [enqueueNDRangeKernel]: the kernel runs once per scheduled work-item,
    with the arguments set at lines 107-111. *)
Fixpoint enqueueNDRangeKernel (dev : bool) (sched : list (Z * Z)) (w h : Z)
    (ox oy zm : spec_float) (max_iter : Z) (output : list Kernel.uchar3)
  : option (list Kernel.uchar3) :=
  match sched with
  | [] => Some output
  | (x, y) :: rest =>
      output' ← Kernel.mandelbrot dev output x y w h ox oy zm max_iter;
      enqueueNDRangeKernel dev rest w h ox oy zm max_iter output'
  end.

(** The body of the two host loops, lines 119-123. *)
Definition color_pixel (tbl : list rgb) (output : list Kernel.uchar3) (y x : Z)
    (img : list Z) : option (list Z) :=
  let idx := y * WIDTH + x in
  px ← load output idx;
  c ← load tbl (Kernel.s0 px);
  let '(r, g, b) := c in
  img ← store img ((y * WIDTH + x) * 3) r;
  img ← store img ((y * WIDTH + x) * 3 + 1) g;
  store img ((y * WIDTH + x) * 3 + 2) b.

Definition generateMandelbrot (d : dispatch) (st : state) (img : list Z) : option (list Z) :=
  output ← enqueueNDRangeKernel (fp64 d) (schedule d) WIDTH HEIGHT
             (offsetX st) (offsetY st) (zoom st) MAX_ITER (fresh d);
  for_loop 0 HEIGHT (fun y => for_loop 0 WIDTH (color_pixel (colorTable st) output y)) img.

(** *** The coordinator: [generateMandelbrotAsync] (lines 132-139) *)

(** The call itself: it returns at once when the flag is set, and otherwise
    sets the flag and detaches a thread. *)
Definition generateMandelbrotAsync (st : state) : state :=
  if isGenerating st then st
  else set_detached (S (detached st)) (set_isGenerating true st).

(** The body of a detached thread, run to its end: it generates into the
    shared [image] and clears the flag. *)
Definition thread_body (d : dispatch) (st : state) : option state :=
  match detached st with
  | O => None
  | S n =>
      img ← generateMandelbrot d st (image st);
      Some (set_detached n (set_isGenerating false (set_image img st)))
  end.

(** *** Input handling: the event switch of [main] (lines 170-206) *)

Inductive keysym := SDLK_w | SDLK_s | SDLK_a | SDLK_d | SDLK_e | SDLK_q | SDLK_other.

Inductive event := SDL_QUIT | SDL_KEYDOWN (k : keysym) | SDL_other.

Section Keys.
Variable abi : long_double.

(** [0.1f / zoom] *)
Definition pan_step (st : state) : spec_float :=
  IEEE.div IEEE.binary32 (IEEE.decimal IEEE.binary32 false 1 1) (zoom st).

(** [1.05L] *)
Definition zoom_factor : spec_float := IEEE.decimal (ld_format abi) false 105 2.

(** [zoom *= 1.05L] and [zoom /= 1.05L]: the operation is carried out in
    [long double] and the result converted back to [float]. *)
Definition zoom_in (z : spec_float) : spec_float :=
  IEEE.convert IEEE.binary32
    (IEEE.mul (ld_format abi) (IEEE.convert (ld_format abi) z) zoom_factor).

Definition zoom_out (z : spec_float) : spec_float :=
  IEEE.convert IEEE.binary32
    (IEEE.div (ld_format abi) (IEEE.convert (ld_format abi) z) zoom_factor).

Definition key_down (k : keysym) (st : state) : state :=
  match k with
  | SDLK_w => set_needsRedraw true
                (set_offsetY (IEEE.sub IEEE.binary32 (offsetY st) (pan_step st)) st)
  | SDLK_s => set_needsRedraw true
                (set_offsetY (IEEE.add IEEE.binary32 (offsetY st) (pan_step st)) st)
  | SDLK_a => set_needsRedraw true
                (set_offsetX (IEEE.sub IEEE.binary32 (offsetX st) (pan_step st)) st)
  | SDLK_d => set_needsRedraw true
                (set_offsetX (IEEE.add IEEE.binary32 (offsetX st) (pan_step st)) st)
  | SDLK_e => set_needsRedraw true (set_zoom (zoom_in (zoom st)) st)
  | SDLK_q => set_needsRedraw true (set_zoom (zoom_out (zoom st)) st)
  | SDLK_other => st
  end.

(** One event taken from the queue; the first component is [quit]. *)
Definition handle_event (e : event) (qs : bool * state) : bool * state :=
  match e with
  | SDL_QUIT => (true, snd qs)
  | SDL_KEYDOWN k => (fst qs, key_down k (snd qs))
  | SDL_other => qs
  end.

(** One pass of the outer loop of [main], up to the presentation calls:
    the pending events are drained, then a redraw is requested if needed. *)
Definition main_pass (pending : list event) (qs : bool * state) : bool * state :=
  let '(quit, st) := fold_left (fun acc e => handle_event e acc) pending qs in
  if needsRedraw st
  then (quit, set_needsRedraw false (generateMandelbrotAsync st))
  else (quit, st).
End Keys.


(** ** Vocabulary of the statements *)

(** The three bytes of pixel number [k] of a tightly packed RGB raster, and
    those of pixel [(x, y)]. *)
Definition triple_at (img : list Z) (k : Z) : option rgb :=
  r ← load img (k * 3);
  g ← load img (k * 3 + 1);
  b ← load img (k * 3 + 2);
  Some (r, g, b).

Definition pixel_at (img : list Z) (x y : Z) : option rgb :=
  triple_at img (y * WIDTH + x).

(** What lines 119-123 establish for pixel number [k], and what the host
    loops have established when they reach pixel number [k]. *)
Definition painted (tbl : list rgb) (output : list Kernel.uchar3) (img : list Z) (k : Z) : Prop :=
  exists px c, load output k = Some px /\ load tbl (Kernel.s0 px) = Some c /\
               triple_at img k = Some c.

Definition painted_below (tbl : list rgb) (output : list Kernel.uchar3) (k : Z)
    (img : list Z) : Prop :=
  Z.of_nat (length img) = WIDTH * HEIGHT * 3 /\
  forall j, 0 <= j < k -> painted tbl output img j.

(** A schedule that runs the work-items row by row, and a zero-filled
    buffer. *)
Definition row_major (w h : Z) : list (Z * Z) :=
  y ← seqZ 0 h; x ← seqZ 0 w; [(x, y)].

Definition blank : list Kernel.uchar3 :=
  replicate (Z.to_nat (WIDTH * HEIGHT)) (Kernel.Uchar3 0 0 0).

Definition dispatch0 (dev : bool) : dispatch :=
  Dispatch dev (row_major WIDTH HEIGHT) blank.

(** The key events of a run, applied in order, and events as the inner loop
    of [main] drains them. *)
Definition keys (abi : long_double) (ks : list keysym) (st : state) : state :=
  fold_left (fun acc k => key_down abi k acc) ks st.

Definition events (abi : long_double) (evs : list event) (qs : bool * state) : bool * state :=
  fold_left (fun acc e => handle_event abi e acc) evs qs.

(** A binary32 value that is finite and positive, or +infinity. *)
Definition positive_zoom (z : spec_float) : Prop :=
  z = S754_infinity false \/
  exists m e, z = S754_finite false m e /\ -149 <= e.

(** The table [initColorTable] fills in, entry by entry ([None] entries, of
    which there are none, would read as black). *)
Definition palette (abi : long_double) : list rgb :=
  (fun it => default (0, 0, 0) (Palette.color abi it)) <$> seqZ 0 (MAX_ITER + 1).

(** Two colours that differ by at most one unit in every channel. *)
Definition within_rounding (c c' : rgb) : Prop :=
  let '(r, g, b) := c in
  let '(r', g', b') := c' in
  Z.abs (r - r') <= 1 /\ Z.abs (g - g') <= 1 /\ Z.abs (b - b') <= 1.

(** The pixel-to-plane mapping in the words of the specification, with the
    constants of the program: [ASPECT_X / WIDTH / zoom] is a quotient of the
    literal's type stored as a [float], the rest is [float] arithmetic. *)
Definition ASPECT_X (dev : bool) : spec_float := IEEE.decimal (Kernel.lit dev) false 35 1.
Definition ASPECT_Y (dev : bool) : spec_float := IEEE.decimal (Kernel.lit dev) false 20 1.

Definition spec_scale (dev : bool) (aspect : spec_float) (extent : Z) (zm : spec_float)
  : spec_float :=
  IEEE.convert IEEE.binary32
    (IEEE.div (Kernel.lit dev)
       (IEEE.div (Kernel.lit dev) aspect (IEEE.of_Z (Kernel.lit dev) extent))
       (IEEE.convert (Kernel.lit dev) zm)).

Definition spec_cx (dev : bool) (x : Z) (ox zm : spec_float) : spec_float :=
  IEEE.add IEEE.binary32
    (IEEE.mul IEEE.binary32 (IEEE.of_Z IEEE.binary32 (x - WIDTH / 2))
       (spec_scale dev (ASPECT_X dev) WIDTH zm)) ox.

Definition spec_cy (dev : bool) (y : Z) (oy zm : spec_float) : spec_float :=
  IEEE.add IEEE.binary32
    (IEEE.mul IEEE.binary32 (IEEE.of_Z IEEE.binary32 (y - HEIGHT / 2))
       (spec_scale dev (ASPECT_Y dev) HEIGHT zm)) oy.

(** ** Vocabulary of the further properties *)

(** The test of line 82 and the assignments of lines 84-87, each on its own,
    and the registers after [k] passes through the body. *)
Definition escapes (dev : bool) (r : Kernel.regs) : bool :=
  IEEE.gt
    (IEEE.convert (Kernel.lit dev)
       (IEEE.add IEEE.binary32
          (IEEE.mul IEEE.binary32 (Kernel.zx r) (Kernel.zx r))
          (IEEE.mul IEEE.binary32 (Kernel.zy r) (Kernel.zy r))))
    (Kernel.lit_4_0 dev).

Definition advance (dev : bool) (cx cy : spec_float) (r : Kernel.regs) : Kernel.regs :=
  Kernel.Regs
    (IEEE.add IEEE.binary32
       (IEEE.sub IEEE.binary32
          (IEEE.mul IEEE.binary32 (Kernel.zx r) (Kernel.zx r))
          (IEEE.mul IEEE.binary32 (Kernel.zy r) (Kernel.zy r))) cx)
    (IEEE.convert IEEE.binary32
       (IEEE.add (Kernel.lit dev)
          (IEEE.mul (Kernel.lit dev)
             (IEEE.mul (Kernel.lit dev) (Kernel.lit_2_0 dev)
                (IEEE.convert (Kernel.lit dev) (Kernel.zx r)))
             (IEEE.convert (Kernel.lit dev) (Kernel.zy r)))
          (IEEE.convert (Kernel.lit dev) cy)))
    (Kernel.iter r + 1).

Definition orbit (dev : bool) (cx cy : spec_float) (k : nat) : Kernel.regs :=
  Nat.iter k (advance dev cx cy) Kernel.init.

(** A second dispatch: the work-items in the reverse order, on a buffer
    that held other data. *)
Definition dispatch1 (dev : bool) : dispatch :=
  Dispatch dev (reverse (row_major WIDTH HEIGHT))
    (replicate (Z.to_nat (WIDTH * HEIGHT)) (Kernel.Uchar3 255 255 255)).

(** The events that set [quit], and the keys of the key-down events, in
    order. *)
Definition is_quit (e : event) : bool :=
  match e with SDL_QUIT => true | _ => false end.

Definition key_presses (evs : list event) : list keysym :=
  omap (fun e => match e with SDL_KEYDOWN k => Some k | _ => None end) evs.

(** The viewport of a state. *)
Definition viewport (st : state) : spec_float * spec_float * spec_float :=
  (offsetX st, offsetY st, zoom st).

(** *** The main thread and the generation thread together

    The generation thread is followed in two steps: its dispatch (lines
    105-115: the kernel arguments are read from the globals, the work-items
    run, the buffer is mapped) and its completion (lines 117-128 and 137:
    the frame buffer is painted and the flag cleared). Passes of the main
    loop may come before, between and after the two. *)

Record world := World {
  host : state;
  quit : bool;
  mapped : option (list Kernel.uchar3)
}.

Inductive action :=
| LoopPass (pending : list event)
| ThreadDispatch (d : dispatch)
| ThreadFinish.

Definition thread_dispatch (d : dispatch) (st : state) : option (list Kernel.uchar3) :=
  enqueueNDRangeKernel (fp64 d) (schedule d) WIDTH HEIGHT
    (offsetX st) (offsetY st) (zoom st) MAX_ITER (fresh d).

Definition thread_finish (output : list Kernel.uchar3) (st : state) : option state :=
  img ← for_loop 0 HEIGHT
           (fun y => for_loop 0 WIDTH (color_pixel (colorTable st) output y)) (image st);
  Some (set_detached (pred (detached st)) (set_isGenerating false (set_image img st))).

(** One action. An action that cannot take place (a pass after [quit], a
    dispatch with no thread waiting or one already mapped, a completion with
    nothing mapped) leaves the world as it is; [None] is a fault of the
    action itself. *)
Definition step (abi : long_double) (a : action) (w : world) : option world :=
  match a with
  | LoopPass pending =>
      if quit w then Some w
      else
        let '(q, st) := main_pass abi pending (false, host w) in
        Some (World st q (mapped w))
  | ThreadDispatch d =>
      match detached (host w), mapped w with
      | S _, None =>
          out ← thread_dispatch d (host w);
          Some (World (host w) (quit w) (Some out))
      | _, _ => Some w
      end
  | ThreadFinish =>
      match mapped w with
      | Some out => st ← thread_finish out (host w); Some (World st (quit w) None)
      | None => Some w
      end
  end.

Fixpoint run (abi : long_double) (acts : list action) (w : world) : option world :=
  match acts with
  | [] => Some w
  | a :: rest => w' ← step abi a w; run abi rest w'
  end.

(** [main] up to its loop: the palette is built, the frame buffer created
    and the first generation requested (lines 142, 154, 155). *)
Definition boot (tbl : list rgb) : world :=
  World (generateMandelbrotAsync (initial tbl)) false None.

(** What holds between any two actions. *)
Definition consistent (tbl : list rgb) (w : world) : Prop :=
  colorTable (host w) = tbl /\
  Z.of_nat (length (image (host w))) = WIDTH * HEIGHT * 3 /\
  needsRedraw (host w) = false /\
  positive_zoom (zoom (host w)) /\
  (detached (host w) <= 1)%nat /\
  (isGenerating (host w) = true <-> detached (host w) = 1%nat) /\
  (forall out, mapped w = Some out ->
     detached (host w) = 1%nat /\
     Z.of_nat (length out) = WIDTH * HEIGHT /\
     forall k px, load out k = Some px -> 0 <= Kernel.s0 px < 256).



(** *** The emptiness check of [main] (lines 157-163)

    The loop leaves [allZero] true when it runs to its end and sets it to
    false at the first byte that is not zero, where it breaks. *)
Fixpoint scan_zero (n : nat) (i : Z) (img : list Z) : option bool :=
  match n with
  | O => Some true
  | S n' => v ← load img i; if v =? 0 then scan_zero n' (i + 1) img else Some false
  end.

Definition allZero (img : list Z) : option bool :=
  scan_zero (Z.to_nat (WIDTH * HEIGHT * 3)) 0 img.

(** Two states a run can reach: after 1840 zoom-ins, and after 2200
    zoom-outs followed by a pan to the right and a pan to the left. *)
Definition zoomed_in (tbl : list rgb) : state :=
  keys X87 (replicate 1840 SDLK_e) (initial tbl).

Definition zoomed_out_and_panned (tbl : list rgb) : state :=
  keys X87 (replicate 2200 SDLK_q ++ [SDLK_d; SDLK_a]) (initial tbl).

(** * Properties *)

(** ** Arrays and loops *)

Lemma load_lookup {A} (l : list A) (i : Z) (v : A) :
  load l i = Some v <-> (0 <= i /\ l !! Z.to_nat i = Some v).
Proof.
  unfold load. split.
  - destruct (0 <=? i) eqn:H0; simpl; [|discriminate].
    destruct (i <? Z.of_nat (length l)); [|discriminate].
    intros H. split; [lia | exact H].
  - intros [H0 H]. apply lookup_lt_Some in H as Hlt.
    replace (0 <=? i) with true by lia.
    replace (i <? Z.of_nat (length l)) with true by lia.
    exact H.
Qed.

Lemma load_in_range {A} (l : list A) (i : Z) :
  0 <= i < Z.of_nat (length l) -> exists v, load l i = Some v.
Proof.
  intros H. destruct (lookup_lt_is_Some_2 l (Z.to_nat i)) as [v Hv]; [lia|].
  exists v. apply load_lookup. split; [lia | exact Hv].
Qed.

Lemma store_in_range {A} (l : list A) (i : Z) (v : A) :
  0 <= i < Z.of_nat (length l) -> store l i v = Some (<[Z.to_nat i := v]> l).
Proof.
  intros H. unfold store.
  replace (0 <=? i) with true by lia.
  replace (i <? Z.of_nat (length l)) with true by lia.
  reflexivity.
Qed.

(** A loop that re-establishes an invariant on every pass runs to its end
    and establishes the invariant at the upper bound. *)
Lemma for_range_inv {T} (P : Z -> T -> Prop) (body : Z -> T -> option T) :
  forall (n : nat) (lo : Z) (s : T),
    P lo s ->
    (forall i t, lo <= i < lo + Z.of_nat n -> P i t ->
                 exists t', body i t = Some t' /\ P (i + 1) t') ->
    exists s', for_range n lo body s = Some s' /\ P (lo + Z.of_nat n) s'.
Proof.
  induction n as [|n IH]; intros lo s HP Hstep.
  - exists s. split; [reflexivity|]. now replace (lo + Z.of_nat 0) with lo by lia.
  - destruct (Hstep lo s) as (t & Hb & Ht); [lia | exact HP |].
    destruct (IH (lo + 1) t Ht) as (s' & Hrun & Hs').
    + intros i u Hi. apply Hstep. lia.
    + exists s'. split.
      * cbn [for_range]. rewrite Hb. exact Hrun.
      * now replace (lo + Z.of_nat (S n)) with (lo + 1 + Z.of_nat n) by lia.
Qed.

Lemma for_loop_inv {T} (P : Z -> T -> Prop) (lo hi : Z) (body : Z -> T -> option T) (s : T) :
  lo <= hi ->
  P lo s ->
  (forall i t, lo <= i < hi -> P i t -> exists t', body i t = Some t' /\ P (i + 1) t') ->
  exists s', for_loop lo hi body s = Some s' /\ P hi s'.
Proof.
  intros Hle HP Hstep. unfold for_loop.
  destruct (for_range_inv P body (Z.to_nat (hi - lo)) lo s HP) as (s' & Hrun & Hs').
  - intros i t Hi. apply Hstep. lia.
  - exists s'. split; [exact Hrun|].
    replace (lo + Z.of_nat (Z.to_nat (hi - lo))) with hi in Hs' by lia. exact Hs'.
Qed.

(** ** The escape loop *)

Section EscapeLoop.
Import IEEE Kernel.
Variable dev : bool.

Lemma loop_pass_cases (cx cy : spec_float) (max_iter : Z) (r : regs) :
  (loop_pass dev cx cy max_iter r = Exhausted r /\ max_iter <= iter r) \/
  (loop_pass dev cx cy max_iter r = Escaped r /\ iter r < max_iter) \/
  (exists r', loop_pass dev cx cy max_iter r = Next r' /\
              iter r' = iter r + 1 /\ iter r < max_iter).
Proof.
  unfold loop_pass. destruct (iter r <? max_iter) eqn:Hg.
  - right. apply Z.ltb_lt in Hg.
    destruct (gt _ _).
    + left. split; [reflexivity | exact Hg].
    + right. eexists. split; [reflexivity|]. split; [reflexivity | exact Hg].
  - left. split; [reflexivity | lia].
Qed.

(** The loop is left after at most [max_iter - iter] passes through its
    body, whatever the floating-point registers hold. *)
Lemma run_loop_terminates (cx cy : spec_float) (max_iter : Z) :
  forall (fuel : nat) (r : regs),
    (Z.to_nat (max_iter - iter r) < fuel)%nat ->
    exists why r' n,
      run_loop dev fuel cx cy max_iter r = Some (why, r', n) /\
      iter r' = iter r + Z.of_nat n /\
      Z.of_nat n <= Z.max 0 (max_iter - iter r).
Proof.
  induction fuel as [|fuel IH]; intros r Hfuel; [lia|].
  cbn [run_loop].
  destruct (loop_pass_cases cx cy max_iter r)
    as [[-> Hge] | [[-> Hlt] | (r1 & -> & Hit & Hlt)]].
  - exists ByBound, r, O. repeat split; lia.
  - exists ByEscape, r, O. repeat split; lia.
  - destruct (IH r1) as (why & r' & n & -> & Hr' & Hn); [lia|].
    exists why, r', (S n). repeat split; lia.
Qed.

(** Fuel beyond what the loop uses does not change its result. *)
Lemma run_loop_more_fuel (cx cy : spec_float) (max_iter : Z) :
  forall (fuel fuel' : nat) (r : regs) res,
    run_loop dev fuel cx cy max_iter r = Some res ->
    (fuel <= fuel')%nat ->
    run_loop dev fuel' cx cy max_iter r = Some res.
Proof.
  induction fuel as [|fuel IH]; intros fuel' r res Hrun Hle; [discriminate|].
  destruct fuel' as [|fuel']; [lia|].
  cbn [run_loop] in *.
  destruct (loop_pass dev cx cy max_iter r); try exact Hrun.
  destruct (run_loop dev fuel cx cy max_iter r0) as [res0|] eqn:Hr0; [|discriminate].
  rewrite (IH fuel' r0 res0 Hr0); [exact Hrun | lia].
Qed.

Lemma escape_loop_total (cx cy : spec_float) (max_iter : Z) :
  exists why r n,
    escape_loop dev cx cy max_iter = Some (why, r, n) /\
    iter r = Z.of_nat n /\ Z.of_nat n <= Z.max 0 max_iter.
Proof.
  destruct (run_loop_terminates cx cy max_iter (S (Z.to_nat max_iter)) init)
    as (why & r & n & Hrun & Hit & Hn).
  - cbn [init iter]. lia.
  - exists why, r, n. cbn [init iter] in *. repeat split; [exact Hrun | lia | lia].
Qed.

Lemma mandelbrot_iter_total (x y w h : Z) (ox oy zm : spec_float) (max_iter : Z) :
  exists n, mandelbrot_iter dev x y w h ox oy zm max_iter = Some n /\
            0 <= n <= Z.max 0 max_iter.
Proof.
  unfold mandelbrot_iter.
  destruct (escape_loop_total (cx_of dev x w ox zm) (cy_of dev y h oy zm) max_iter)
    as (why & r & n & -> & Hit & Hn).
  exists (iter r). split; [reflexivity | lia].
Qed.

End EscapeLoop.

(** C9. The iteration kernel terminates for every input: for every pixel
    coordinate, every range size and every viewport (any binary32 values,
    NaN, infinities, zero and negative [zoom] included) and every [max_iter],
    the loop is left after at most [max_iter] passes through its body, the
    counter then equals the number of passes, and the kernel has a counter
    value to store. *)
Theorem kernel_terminates :
  forall (dev : bool) (x y w h : Z) (ox oy zm : spec_float) (max_iter : Z),
  exists why r n,
    Kernel.escape_loop dev (Kernel.cx_of dev x w ox zm) (Kernel.cy_of dev y h oy zm) max_iter
      = Some (why, r, n) /\
    Z.of_nat n <= Z.max 0 max_iter /\
    Kernel.iter r = Z.of_nat n /\
    Kernel.mandelbrot_iter dev x y w h ox oy zm max_iter = Some (Z.of_nat n) /\
    (forall fuel, (Z.to_nat max_iter < fuel)%nat ->
       Kernel.run_loop dev fuel (Kernel.cx_of dev x w ox zm) (Kernel.cy_of dev y h oy zm)
         max_iter Kernel.init = Some (why, r, n)).
Proof.
  intros.
  destruct (escape_loop_total dev (Kernel.cx_of dev x w ox zm) (Kernel.cy_of dev y h oy zm)
              max_iter) as (why & r & n & Hrun & Hit & Hn).
  exists why, r, n. repeat split; try assumption.
  - unfold Kernel.mandelbrot_iter. rewrite Hrun, Hit. reflexivity.
  - intros fuel Hfuel. unfold Kernel.escape_loop in Hrun.
    eapply run_loop_more_fuel; [exact Hrun | lia].
Qed.

(** ** The escape loop at [c = (0, 0)] and at [c = (2, 0)] *)

Section FixedPoints.
Import IEEE Kernel.

(** The constants of the program as binary floats [m * 2^e]. *)
Lemma literal_values :
  f32_two = of_Z binary32 2 /\ f32_six = of_Z binary32 6 /\
  lit_3_5 true = S754_finite false 7881299347898368 (-51) /\
  lit_3_5 false = S754_finite false 14680064 (-22) /\
  lit_2_0 true = of_Z binary64 2 /\ lit_2_0 false = f32_two /\
  lit_4_0 true = of_Z binary64 4 /\ lit_4_0 false = of_Z binary32 4 /\
  zoom0 = S754_finite false 8388608 (-24) /\
  offsetX0 = S754_finite true 11843416 (-24) /\
  offsetY0 = S754_finite true 8980912 (-25) /\
  decimal binary32 false 1 1 = S754_finite false 13421773 (-27) /\
  zoom_factor X87 = S754_finite false 9684540638697514598 (-63) /\
  zoom_factor Double = S754_finite false 4728779608739021 (-52).
Proof. repeat split; vm_compute; reflexivity. Qed.

Lemma run_loop_step (dev : bool) (fuel : nat) (cx cy : spec_float) (max_iter : Z) (r : regs) :
  run_loop dev (S fuel) cx cy max_iter r =
  match loop_pass dev cx cy max_iter r with
  | Next r' =>
      match run_loop dev fuel cx cy max_iter r' with
      | Some (why, r'', n) => Some (why, r'', S n)
      | None => None
      end
  | Escaped r' => Some (ByEscape, r', O)
  | Exhausted r' => Some (ByBound, r', O)
  end.
Proof. reflexivity. Qed.

Lemma loop_pass_exhausted (dev : bool) (cx cy : spec_float) (max_iter : Z) (r : regs) :
  max_iter <= iter r -> loop_pass dev cx cy max_iter r = Exhausted r.
Proof. intros H. unfold loop_pass. now replace (iter r <? max_iter) with false by lia. Qed.

(** At [c = (±0, ±0)] a pass leaves [zx = zy = +0] and only counts. *)
Lemma loop_pass_origin (dev s1 s2 : bool) (max_iter i : Z) :
  i < max_iter ->
  loop_pass dev (S754_zero s1) (S754_zero s2) max_iter (Regs f32_zero f32_zero i)
  = Next (Regs f32_zero f32_zero (i + 1)).
Proof.
  intros H. unfold loop_pass. cbn [iter zx zy].
  replace (i <? max_iter) with true by lia.
  destruct dev, s1, s2; reflexivity.
Qed.

Lemma run_loop_origin (dev s1 s2 : bool) (max_iter : Z) :
  forall (n : nat) (i : Z),
    i + Z.of_nat n = max_iter ->
    run_loop dev (S n) (S754_zero s1) (S754_zero s2) max_iter (Regs f32_zero f32_zero i)
    = Some (ByBound, Regs f32_zero f32_zero max_iter, n).
Proof.
  induction n as [|n IH]; intros i Hi.
  - rewrite run_loop_step, loop_pass_exhausted by (cbn [iter]; lia).
    replace i with max_iter by lia. reflexivity.
  - rewrite run_loop_step, loop_pass_origin by lia.
    rewrite IH by lia. reflexivity.
Qed.

(** With any fuel, the loop at the origin either is still running or has
    ended at the bound. *)
Lemma run_loop_origin_never_escapes (dev s1 s2 : bool) (max_iter : Z) :
  forall (fuel : nat) (i : Z) r n,
    run_loop dev fuel (S754_zero s1) (S754_zero s2) max_iter (Regs f32_zero f32_zero i)
    <> Some (ByEscape, r, n).
Proof.
  induction fuel as [|fuel IH]; intros i r n; [discriminate|].
  rewrite run_loop_step.
  destruct (Z.lt_ge_cases i max_iter) as [Hlt | Hge].
  - rewrite loop_pass_origin by exact Hlt.
    destruct (run_loop dev fuel _ _ max_iter _) as [[[why r1] n1]|] eqn:Hrun; [|discriminate].
    intros [= -> <- <-]. exact (IH _ _ _ Hrun).
  - rewrite loop_pass_exhausted by (cbn [iter]; lia). discriminate.
Qed.

(** The three passes at [c = (2, ±0)]. *)
Lemma loop_pass_two_0 (dev s : bool) (max_iter : Z) :
  0 < max_iter ->
  loop_pass dev f32_two (S754_zero s) max_iter (Regs f32_zero f32_zero 0)
  = Next (Regs f32_two f32_zero 1).
Proof.
  intros H. unfold loop_pass. cbn [iter zx zy].
  replace (0 <? max_iter) with true by lia.
  destruct dev, s; reflexivity.
Qed.

Lemma loop_pass_two_1 (dev s : bool) (max_iter : Z) :
  1 < max_iter ->
  loop_pass dev f32_two (S754_zero s) max_iter (Regs f32_two f32_zero 1)
  = Next (Regs f32_six f32_zero 2).
Proof.
  intros H. unfold loop_pass. cbn [iter zx zy].
  replace (1 <? max_iter) with true by lia.
  destruct dev, s; reflexivity.
Qed.

Lemma loop_pass_two_2 (dev s : bool) (max_iter : Z) :
  2 < max_iter ->
  loop_pass dev f32_two (S754_zero s) max_iter (Regs f32_six f32_zero 2)
  = Escaped (Regs f32_six f32_zero 2).
Proof.
  intros H. unfold loop_pass. cbn [iter zx zy].
  replace (2 <? max_iter) with true by lia.
  destruct dev, s; reflexivity.
Qed.

(** After the first pass the squared modulus is exactly 4.0, and the test
    of line 82 is strict. *)
Lemma modulus_after_one_pass (dev : bool) :
  let m := convert (lit dev)
             (add binary32 (mul binary32 f32_two f32_two) (mul binary32 f32_zero f32_zero)) in
  m = lit_4_0 dev /\ gt m (lit_4_0 dev) = false.
Proof. destruct dev; split; reflexivity. Qed.

Lemma escape_loop_two (dev s : bool) (max_iter : Z) :
  1 <= max_iter ->
  escape_loop dev f32_two (S754_zero s) max_iter =
  if 3 <=? max_iter then Some (ByEscape, Regs f32_six f32_zero 2, 2%nat)
  else if 2 <=? max_iter then Some (ByBound, Regs f32_six f32_zero 2, 2%nat)
  else Some (ByBound, Regs f32_two f32_zero 1, 1%nat).
Proof.
  intros H. unfold escape_loop.
  change init with (Regs f32_zero f32_zero 0).
  destruct (3 <=? max_iter) eqn:H3; [|destruct (2 <=? max_iter) eqn:H2].
  - replace (Z.to_nat max_iter) with (S (S (S (Z.to_nat (max_iter - 3))))) by lia.
    rewrite run_loop_step, loop_pass_two_0 by lia.
    rewrite run_loop_step, loop_pass_two_1 by lia.
    rewrite run_loop_step, loop_pass_two_2 by lia.
    reflexivity.
  - replace max_iter with 2 by lia. destruct dev, s; reflexivity.
  - replace max_iter with 1 by lia. destruct dev, s; reflexivity.
Qed.

End FixedPoints.

(** C2, as stated: for every viewport and every [max_iter >= 1], a pixel
    mapped to [c = (2.0, 0.0)] leaves the loop by escape with a counter of at
    most 1. This fails: with the arguments of the program ([max_iter = 800])
    and the centre pixel of a viewport at offset (2, 0), the counter is 2. *)
Lemma escape_at_two_within_one_fails :
  ~ (forall (dev : bool) (x y w h : Z) (ox oy zm : spec_float) (max_iter : Z),
       1 <= max_iter ->
       Kernel.cx_of dev x w ox zm = f32_two ->
       Kernel.cy_of dev y h oy zm = f32_zero ->
       exists r n,
         Kernel.escape_loop dev (Kernel.cx_of dev x w ox zm) (Kernel.cy_of dev y h oy zm)
           max_iter = Some (Kernel.ByEscape, r, n) /\
         Kernel.iter r <= 1).
Proof.
  intros H.
  destruct (H true 400 300 WIDTH HEIGHT f32_two f32_zero zoom0 MAX_ITER)
    as (r & n & Hrun & Hle).
  - unfold MAX_ITER. lia.
  - reflexivity.
  - reflexivity.
  - vm_compute in Hrun. injection Hrun as <- <-. vm_compute in Hle. apply Hle. reflexivity.
Qed.

(** C2, amended: for every viewport and every pixel mapped to
    [c = (2.0, 0.0)] (either sign of zero), the loop is left by escape with
    the counter exactly 2 as soon as [max_iter >= 3]: after one pass the
    squared modulus is exactly 4.0, which is not greater than 4.0, and after
    two passes it is 36. With [max_iter] 1 or 2 the loop ends at the bound
    with the counter equal to [max_iter]. *)
Theorem escape_at_two :
  forall (dev : bool) (x y w h : Z) (ox oy zm : spec_float) (max_iter : Z) (s : bool),
    1 <= max_iter ->
    Kernel.cx_of dev x w ox zm = f32_two ->
    Kernel.cy_of dev y h oy zm = S754_zero s ->
    exists why r,
      Kernel.escape_loop dev (Kernel.cx_of dev x w ox zm) (Kernel.cy_of dev y h oy zm)
        max_iter = Some (why, r, Z.to_nat (Z.min 2 max_iter)) /\
      why = (if 3 <=? max_iter then Kernel.ByEscape else Kernel.ByBound) /\
      Kernel.iter r = Z.min 2 max_iter /\
      Kernel.mandelbrot_iter dev x y w h ox oy zm max_iter = Some (Z.min 2 max_iter).
Proof.
  intros dev x y w h ox oy zm max_iter s Hmax Hcx Hcy.
  unfold Kernel.mandelbrot_iter. rewrite Hcx, Hcy.
  rewrite (escape_loop_two dev s max_iter Hmax).
  destruct (3 <=? max_iter) eqn:H3; [|destruct (2 <=? max_iter) eqn:H2].
  - replace (Z.min 2 max_iter) with 2 by lia.
    do 2 eexists. repeat split; reflexivity.
  - replace (Z.min 2 max_iter) with 2 by lia.
    do 2 eexists. repeat split; reflexivity.
  - replace (Z.min 2 max_iter) with 1 by lia.
    do 2 eexists. repeat split; reflexivity.
Qed.

Lemma escape_at_two_witness :
  1 <= MAX_ITER /\
  Kernel.cx_of true 400 WIDTH f32_two zoom0 = f32_two /\
  Kernel.cy_of true 300 HEIGHT f32_zero zoom0 = S754_zero false /\
  exists why r,
    Kernel.escape_loop true (Kernel.cx_of true 400 WIDTH f32_two zoom0)
      (Kernel.cy_of true 300 HEIGHT f32_zero zoom0) MAX_ITER
      = Some (why, r, Z.to_nat (Z.min 2 MAX_ITER)) /\
    why = (if 3 <=? MAX_ITER then Kernel.ByEscape else Kernel.ByBound) /\
    Kernel.iter r = Z.min 2 MAX_ITER /\
    Kernel.mandelbrot_iter true 400 300 WIDTH HEIGHT f32_two f32_zero zoom0 MAX_ITER
      = Some (Z.min 2 MAX_ITER).
Proof.
  split; [unfold MAX_ITER; lia|]. split; [reflexivity|]. split; [reflexivity|].
  apply (escape_at_two true 400 300 WIDTH HEIGHT f32_two f32_zero zoom0 MAX_ITER false).
  - unfold MAX_ITER. lia.
  - reflexivity.
  - reflexivity.
Defined.

(** C4. For every viewport and the fixed [MAX_ITER], a pixel mapped to
    [c = (0.0, 0.0)] (either sign of zero) never satisfies the escape
    condition: no run of the loop ends by escape, the loop ends at the bound
    after [MAX_ITER] passes, and the counter is then exactly [MAX_ITER]. *)
Theorem origin_never_escapes :
  forall (dev : bool) (x y w h : Z) (ox oy zm : spec_float) (s1 s2 : bool),
    Kernel.cx_of dev x w ox zm = S754_zero s1 ->
    Kernel.cy_of dev y h oy zm = S754_zero s2 ->
    (forall fuel r n,
       Kernel.run_loop dev fuel (Kernel.cx_of dev x w ox zm) (Kernel.cy_of dev y h oy zm)
         MAX_ITER Kernel.init <> Some (Kernel.ByEscape, r, n)) /\
    (exists r,
       Kernel.escape_loop dev (Kernel.cx_of dev x w ox zm) (Kernel.cy_of dev y h oy zm)
         MAX_ITER = Some (Kernel.ByBound, r, Z.to_nat MAX_ITER) /\
       Kernel.iter r = MAX_ITER) /\
    Kernel.mandelbrot_iter dev x y w h ox oy zm MAX_ITER = Some MAX_ITER.
Proof.
  intros dev x y w h ox oy zm s1 s2 Hcx Hcy.
  unfold Kernel.mandelbrot_iter. rewrite Hcx, Hcy.
  assert (Hrun : Kernel.escape_loop dev (S754_zero s1) (S754_zero s2) MAX_ITER
                 = Some (Kernel.ByBound, Kernel.Regs f32_zero f32_zero MAX_ITER,
                         Z.to_nat MAX_ITER)).
  { unfold Kernel.escape_loop. change Kernel.init with (Kernel.Regs f32_zero f32_zero 0).
    apply run_loop_origin. unfold MAX_ITER. lia. }
  split; [|split].
  - intros fuel r n. change Kernel.init with (Kernel.Regs f32_zero f32_zero 0).
    apply run_loop_origin_never_escapes.
  - eexists. split; [exact Hrun | reflexivity].
  - rewrite Hrun. reflexivity.
Qed.

Lemma origin_never_escapes_witness :
  Kernel.cx_of true 400 WIDTH f32_zero zoom0 = S754_zero false /\
  Kernel.cy_of true 300 HEIGHT f32_zero zoom0 = S754_zero false /\
  Kernel.mandelbrot_iter true 400 300 WIDTH HEIGHT f32_zero f32_zero zoom0 MAX_ITER
    = Some MAX_ITER.
Proof.
  split; [reflexivity|]. split; [reflexivity|].
  apply (origin_never_escapes true 400 300 WIDTH HEIGHT f32_zero f32_zero zoom0 false false);
    reflexivity.
Defined.

(** ** Generation *)

Section Generation.
Import Kernel.

Lemma load_insert_eq {A} (l : list A) (i : Z) (v : A) :
  0 <= i < Z.of_nat (length l) -> load (<[Z.to_nat i := v]> l) i = Some v.
Proof.
  intros H. apply load_lookup. split; [lia|].
  apply list_lookup_insert_eq. lia.
Qed.

Lemma load_insert_ne {A} (l : list A) (i j : Z) (v : A) :
  0 <= i -> 0 <= j -> i <> j -> load (<[Z.to_nat i := v]> l) j = load l j.
Proof.
  intros Hi Hj Hne. unfold load. rewrite length_insert.
  destruct ((0 <=? j) && (j <? Z.of_nat (length l))); [|reflexivity].
  apply list_lookup_insert_ne. lia.
Qed.

Lemma index_in_range (w h x y : Z) :
  0 <= x < w -> 0 <= y < h -> 0 <= y * w + x < w * h.
Proof.
  intros Hx Hy.
  assert (0 <= y * w) by (apply Z.mul_nonneg_nonneg; lia).
  assert (y * w <= (h - 1) * w) by (apply Z.mul_le_mono_nonneg_r; lia).
  lia.
Qed.

Lemma index_inj (w x y x' y' : Z) :
  0 <= x < w -> 0 <= x' < w -> y * w + x = y' * w + x' -> x = x' /\ y = y'.
Proof.
  intros Hx Hx' H.
  assert (y = y'); [|split; [subst; lia | assumption]].
  destruct (Z.lt_trichotomy y y') as [Hlt | [Heq | Hgt]]; [exfalso | exact Heq | exfalso].
  - assert ((y + 1) * w <= y' * w) by (apply Z.mul_le_mono_nonneg_r; lia). lia.
  - assert ((y' + 1) * w <= y * w) by (apply Z.mul_le_mono_nonneg_r; lia). lia.
Qed.

(** One work-item: the loop yields a counter, and the kernel stores its
    packed value in the cell of the work-item. *)
Lemma mandelbrot_stores (dev : bool) (output : list uchar3) (x y w h : Z)
    (ox oy zm : spec_float) (mi : Z) :
  0 <= x < w -> 0 <= y < h -> Z.of_nat (length output) = w * h ->
  exists n,
    mandelbrot_iter dev x y w h ox oy zm mi = Some n /\
    0 <= n <= Z.max 0 mi /\
    mandelbrot dev output x y w h ox oy zm mi
    = Some (<[Z.to_nat (y * w + x) := pack n]> output).
Proof.
  intros Hx Hy Hlen.
  destruct (mandelbrot_iter_total dev x y w h ox oy zm mi) as (n & Hn & Hr).
  exists n. split; [exact Hn|]. split; [exact Hr|].
  unfold mandelbrot. rewrite Hn. cbn.
  apply store_in_range. pose proof (index_in_range w h x y Hx Hy). lia.
Qed.

(** The range as a whole: whatever the order of the work-items, and however
    often each one runs, the cell of every scheduled work-item ends with the
    packed counter of that work-item, and the other cells are untouched. *)
Lemma enqueue_spec (dev : bool) (w h : Z) (ox oy zm : spec_float) (mi : Z) :
  forall (sched : list (Z * Z)) (output : list uchar3),
    (forall x y, (x, y) ∈ sched -> 0 <= x < w /\ 0 <= y < h) ->
    Z.of_nat (length output) = w * h ->
    exists out',
      enqueueNDRangeKernel dev sched w h ox oy zm mi output = Some out' /\
      length out' = length output /\
      (forall x y, (x, y) ∈ sched ->
         exists n, mandelbrot_iter dev x y w h ox oy zm mi = Some n /\
                   0 <= n <= Z.max 0 mi /\
                   load out' (y * w + x) = Some (pack n)) /\
      (forall k, 0 <= k -> (forall x y, (x, y) ∈ sched -> y * w + x <> k) ->
                 load out' k = load output k).
Proof.
  induction sched as [|[x0 y0] rest IH]; intros output Hin Hlen.
  - exists output. split; [reflexivity|]. split; [reflexivity|]. split.
    + intros x y H. apply elem_of_nil in H. contradiction.
    + reflexivity.
  - destruct (Hin x0 y0) as [Hx0 Hy0]; [apply elem_of_cons; now left|].
    destruct (mandelbrot_stores dev output x0 y0 w h ox oy zm mi Hx0 Hy0 Hlen)
      as (n0 & Hn0 & Hr0 & Hk0).
    pose proof (index_in_range w h x0 y0 Hx0 Hy0) as Hi0.
    destruct (IH (<[Z.to_nat (y0 * w + x0) := pack n0]> output)) as (out' & Hrun & Hl & Hset & Hkeep).
    { intros x y H. apply Hin. apply elem_of_cons. now right. }
    { rewrite length_insert. exact Hlen. }
    exists out'. split; [|split; [|split]].
    + cbn [enqueueNDRangeKernel]. rewrite Hk0. exact Hrun.
    + rewrite Hl. apply length_insert.
    + intros x y H. apply elem_of_cons in H.
      destruct (decide ((x, y) ∈ rest)) as [Hr | Hnr]; [now apply Hset|].
      destruct H as [[= -> ->] | H]; [|contradiction].
      exists n0. split; [exact Hn0|]. split; [exact Hr0|].
      rewrite Hkeep.
      * apply load_insert_eq. lia.
      * lia.
      * intros x y Hxy Heq. destruct (Hin x y) as [Hx Hy]; [apply elem_of_cons; now right|].
        destruct (index_inj w x y x0 y0 Hx Hx0 Heq) as [-> ->]. contradiction.
    + intros k Hk Hout. rewrite Hkeep.
      * apply load_insert_ne; [lia | exact Hk |].
        apply Hout. apply elem_of_cons. now left.
      * exact Hk.
      * intros x y Hxy. apply Hout. apply elem_of_cons. now right.
Qed.

Lemma triple_at_paint (img : list Z) (k : Z) (r g b : Z) :
  0 <= k -> k * 3 + 2 < Z.of_nat (length img) ->
  let img' := <[Z.to_nat (k * 3 + 2) := b]>
                (<[Z.to_nat (k * 3 + 1) := g]> (<[Z.to_nat (k * 3) := r]> img)) in
  triple_at img' k = Some (r, g, b) /\
  (forall j, 0 <= j -> j <> k -> triple_at img' j = triple_at img j).
Proof.
  intros Hk Hlen img'. subst img'. split.
  - unfold triple_at.
    rewrite (load_insert_ne _ (k * 3 + 2) (k * 3)) by lia.
    rewrite (load_insert_ne _ (k * 3 + 1) (k * 3)) by lia.
    rewrite (load_insert_eq img (k * 3)) by lia.
    rewrite (load_insert_ne _ (k * 3 + 2) (k * 3 + 1)) by lia.
    rewrite (load_insert_eq _ (k * 3 + 1)) by (rewrite ?length_insert; lia).
    rewrite (load_insert_eq _ (k * 3 + 2)) by (rewrite ?length_insert; lia).
    reflexivity.
  - intros j Hj Hne. unfold triple_at.
    rewrite !(load_insert_ne _ (k * 3 + 2)) by lia.
    rewrite !(load_insert_ne _ (k * 3 + 1)) by lia.
    rewrite !(load_insert_ne _ (k * 3)) by lia.
    reflexivity.
Qed.

(** The host loops: pixel after pixel, row after row. *)
Variable tbl : list rgb.
Variable output : list uchar3.
Hypothesis output_length : Z.of_nat (length output) = WIDTH * HEIGHT.
Hypothesis output_bytes :
  forall k px, load output k = Some px -> 0 <= s0 px < Z.of_nat (length tbl).

Lemma color_pixel_paints (x y : Z) (img : list Z) :
  0 <= x < WIDTH -> 0 <= y < HEIGHT ->
  painted_below tbl output (y * WIDTH + x) img ->
  exists img', color_pixel tbl output y x img = Some img' /\
               painted_below tbl output (y * WIDTH + x + 1) img'.
Proof.
  intros Hx Hy [Hlen Hbelow].
  pose proof (index_in_range WIDTH HEIGHT x y Hx Hy) as Hk.
  set (k := y * WIDTH + x) in *.
  destruct (load_in_range output k) as [px Hpx]; [lia|].
  destruct (load_in_range tbl (s0 px)) as [[[r g] b] Hc]; [eauto|].
  destruct (triple_at_paint img k r g b) as [Hnew Hold]; [lia | lia |].
  eexists. split.
  - unfold color_pixel. fold k. rewrite Hpx. cbn. rewrite Hc. cbn.
    rewrite store_in_range by lia. cbn.
    rewrite store_in_range by (rewrite length_insert; lia). cbn.
    apply store_in_range. rewrite !length_insert. lia.
  - split; [rewrite !length_insert; exact Hlen|].
    intros j Hj. destruct (Z.eq_dec j k) as [-> | Hne].
    + exists px, (r, g, b). auto.
    + destruct (Hbelow j) as (px' & c' & H1 & H2 & H3); [lia|].
      exists px', c'. split; [exact H1|]. split; [exact H2|].
      rewrite Hold by lia. exact H3.
Qed.

Lemma color_loops (img : list Z) :
  Z.of_nat (length img) = WIDTH * HEIGHT * 3 ->
  exists img',
    for_loop 0 HEIGHT (fun y => for_loop 0 WIDTH (color_pixel tbl output y)) img = Some img' /\
    painted_below tbl output (WIDTH * HEIGHT) img'.
Proof.
  intros Hlen.
  destruct (for_loop_inv (fun y => painted_below tbl output (y * WIDTH)) 0 HEIGHT
              (fun y => for_loop 0 WIDTH (color_pixel tbl output y)) img)
    as (img' & Hrun & Hinv).
  - unfold HEIGHT. lia.
  - split; [exact Hlen|]. intros j Hj. lia.
  - intros y im Hy Him.
    destruct (for_loop_inv (fun x => painted_below tbl output (y * WIDTH + x)) 0 WIDTH
                (color_pixel tbl output y) im) as (im' & Hrow & Hrowinv).
    + unfold WIDTH. lia.
    + now replace (y * WIDTH + 0) with (y * WIDTH) by lia.
    + intros x t Hx Ht.
      destruct (color_pixel_paints x y t Hx Hy Ht) as (t' & Hstep & Ht').
      exists t'. split; [exact Hstep|].
      now replace (y * WIDTH + (x + 1)) with (y * WIDTH + x + 1) by lia.
    + exists im'. split; [exact Hrow|].
      now replace ((y + 1) * WIDTH) with (y * WIDTH + WIDTH) by lia.
  - exists img'. split; [exact Hrun|].
    now replace (WIDTH * HEIGHT) with (HEIGHT * WIDTH) by lia.
Qed.

End Generation.

Lemma to_uchar_rem_range (n : Z) : 0 <= n -> 0 <= Kernel.to_uchar (Z.rem n 256) < 256.
Proof. intros H. unfold Kernel.to_uchar. apply Z.mod_pos_bound. lia. Qed.

(** For a counter that is not negative, [%] and the conversion to [uchar]
    leave the counter modulo 256. *)
Lemma to_uchar_rem (n : Z) : 0 <= n -> Kernel.to_uchar (Z.rem n 256) = n mod 256.
Proof.
  intros H. unfold Kernel.to_uchar.
  rewrite Z.rem_mod_nonneg by lia. apply Z.mod_mod. lia.
Qed.

(** One generation, from the dispatch to the last pixel: it succeeds, and
    every pixel of [image] holds the palette entry selected by the first byte
    of the work-item's cell, that is by the counter modulo 256. *)
Lemma generateMandelbrot_spec (d : dispatch) (st : state) (img : list Z) :
  well_formed d ->
  256 <= Z.of_nat (length (colorTable st)) ->
  Z.of_nat (length img) = WIDTH * HEIGHT * 3 ->
  exists img',
    generateMandelbrot d st img = Some img' /\
    Z.of_nat (length img') = WIDTH * HEIGHT * 3 /\
    forall x y, 0 <= x < WIDTH -> 0 <= y < HEIGHT ->
      exists n c,
        Kernel.mandelbrot_iter (fp64 d) x y WIDTH HEIGHT
          (offsetX st) (offsetY st) (zoom st) MAX_ITER = Some n /\
        0 <= n <= MAX_ITER /\
        load (colorTable st) (n mod 256) = Some c /\
        pixel_at img' x y = Some c.
Proof.
  intros [Hcov Hfresh] Htbl Himg.
  destruct (enqueue_spec (fp64 d) WIDTH HEIGHT (offsetX st) (offsetY st) (zoom st) MAX_ITER
              (schedule d) (fresh d)) as (out & Hrun & Hlen & Hset & _).
  { intros x y H. now apply Hcov. }
  { exact Hfresh. }
  assert (Hbytes : forall k px, load out k = Some px ->
                                0 <= Kernel.s0 px < Z.of_nat (length (colorTable st))).
  { intros k px Hpx. apply load_lookup in Hpx as Hk. destruct Hk as [Hk0 Hk].
    apply lookup_lt_Some in Hk.
    assert (Hk1 : 0 <= k < WIDTH * HEIGHT) by lia.
    assert (Hx : 0 <= k mod WIDTH < WIDTH) by (apply Z.mod_pos_bound; unfold WIDTH; lia).
    assert (Hy : 0 <= k / WIDTH < HEIGHT).
    { split; [apply Z.div_pos; unfold WIDTH; lia|].
      apply Z.div_lt_upper_bound; [unfold WIDTH; lia | lia]. }
    destruct (Hset (k mod WIDTH) (k / WIDTH)) as (n & _ & Hn & Hcell); [now apply Hcov|].
    replace (k / WIDTH * WIDTH + k mod WIDTH) with k in Hcell
      by (rewrite (Z.div_mod k WIDTH) at 1; [lia | unfold WIDTH; lia]).
    rewrite Hpx in Hcell. injection Hcell as ->. cbn [Kernel.pack Kernel.s0].
    pose proof (to_uchar_rem_range n). lia. }
  destruct (color_loops (colorTable st) out) with (img := img) as (img' & Hloops & Hlen' & Hall).
  { lia. }
  { exact Hbytes. }
  { exact Himg. }
  exists img'. split; [|split; [exact Hlen'|]].
  - unfold generateMandelbrot. rewrite Hrun. exact Hloops.
  - intros x y Hx Hy.
    destruct (Hset x y) as (n & Hn & Hr & Hcell); [now apply Hcov|].
    destruct (Hall (y * WIDTH + x)) as (px & c & Hpx & Hc & Himg').
    { apply index_in_range; assumption. }
    rewrite Hcell in Hpx. injection Hpx as <-. cbn [Kernel.pack Kernel.s0] in Hc.
    exists n, c. split; [exact Hn|]. split; [unfold MAX_ITER in *; lia|].
    split; [|exact Himg']. rewrite <- to_uchar_rem by lia. exact Hc.
Qed.

(** ** The palette *)

Section PaletteFacts.
Variable abi : long_double.

(** No cast of [initColorTable] is out of the range of [uint8_t]. *)
Lemma color_defined (it : Z) : 0 <= it <= MAX_ITER -> is_Some (Palette.color abi it).
Proof.
  intros Hit.
  assert (Hall : forallb (fun i => match Palette.color abi i with
                                   | Some _ => true
                                   | None => false
                                   end) (seqZ 0 (MAX_ITER + 1)) = true)
    by (destruct abi; vm_compute; reflexivity).
  rewrite forallb_forall in Hall.
  specialize (Hall it ltac:(apply list_elem_of_In, elem_of_seqZ; lia)).
  destruct (Palette.color abi it); [eauto | discriminate].
Qed.

Lemma palette_length : Z.of_nat (length (palette abi)) = MAX_ITER + 1.
Proof. unfold palette. rewrite length_fmap, length_seqZ. unfold MAX_ITER. lia. Qed.

Lemma palette_lookup (it : Z) :
  0 <= it <= MAX_ITER -> Palette.color abi it = load (palette abi) it.
Proof.
  intros Hit. symmetry. destruct (color_defined it Hit) as [c Hc]. rewrite Hc.
  apply load_lookup. split; [lia|].
  unfold palette. rewrite list_lookup_fmap, lookup_seqZ_lt by lia.
  cbn. rewrite Z2Nat.id, Z.add_0_l, Hc by lia. reflexivity.
Qed.

(** [initColorTable] overwrites every entry: whatever the table held, it
    ends as [palette]. *)
Lemma initColorTable_palette (tbl : list rgb) :
  Z.of_nat (length tbl) = MAX_ITER + 1 ->
  Palette.initColorTable abi tbl = Some (palette abi).
Proof.
  intros Hlen. unfold Palette.initColorTable.
  destruct (for_loop_inv
              (fun i t => Z.of_nat (length t) = MAX_ITER + 1 /\
                          forall j, 0 <= j < i -> load t j = Palette.color abi j)
              0 (MAX_ITER + 1)
              (fun it t => c ← Palette.color abi it; store t it c) tbl)
    as (t & Hrun & Ht & Hall).
  - unfold MAX_ITER. lia.
  - split; [exact Hlen | intros j Hj; lia].
  - intros i t Hi [Ht Hbelow].
    destruct (color_defined i) as [c Hc]; [lia|].
    exists (<[Z.to_nat i := c]> t). split.
    + rewrite Hc. cbn. apply store_in_range. lia.
    + split; [rewrite length_insert; exact Ht|].
      intros j Hj. destruct (Z.eq_dec j i) as [-> | Hne].
      * rewrite load_insert_eq by lia. symmetry. exact Hc.
      * rewrite load_insert_ne by lia. apply Hbelow. lia.
  - rewrite Hrun. f_equal. apply list_eq. intros k.
    destruct (Z.lt_ge_cases (Z.of_nat k) (MAX_ITER + 1)) as [Hlt | Hge].
    + specialize (Hall (Z.of_nat k) ltac:(lia)).
      rewrite palette_lookup in Hall by lia.
      unfold load in Hall. rewrite palette_length, Ht, Nat2Z.id in Hall.
      replace (0 <=? Z.of_nat k) with true in Hall by lia.
      replace (Z.of_nat k <? MAX_ITER + 1) with true in Hall by lia.
      exact Hall.
    + pose proof palette_length.
      rewrite !lookup_ge_None_2 by lia. reflexivity.
Qed.

Lemma palette_entries :
  load (palette abi) 0 = Some (0, 0, 0) /\
  load (palette abi) 32 = Some (0, 5, 76) /\
  load (palette abi) MAX_ITER = Some (0, 0, 0).
Proof.
  rewrite <- !palette_lookup by (unfold MAX_ITER; lia).
  destruct abi; vm_compute; repeat split; reflexivity.
Qed.

End PaletteFacts.

(** C6. [initColorTable] is deterministic: from any two tables of
    [MAX_ITER + 1] entries it produces the same table, and run a second time
    on its own result it reproduces that result; entry 0 of the table is
    exactly (0, 0, 0), and entry [MAX_ITER] is within rounding of (0, 0, 0),
    being (0, 0, 0) itself since [1 - t] is exactly zero at [t = 1]. *)
Theorem initColorTable_deterministic :
  forall (abi : long_double) (tbl tbl' : list rgb),
    Z.of_nat (length tbl) = MAX_ITER + 1 ->
    Z.of_nat (length tbl') = MAX_ITER + 1 ->
    exists t,
      Palette.initColorTable abi tbl = Some t /\
      Palette.initColorTable abi tbl' = Some t /\
      Palette.initColorTable abi t = Some t /\
      load t 0 = Some (0, 0, 0) /\
      exists c, load t MAX_ITER = Some c /\ within_rounding c (0, 0, 0) /\ c = (0, 0, 0).
Proof.
  intros abi tbl tbl' Hlen Hlen'. exists (palette abi).
  rewrite !initColorTable_palette by (assumption || apply palette_length).
  destruct (palette_entries abi) as (H0 & _ & Hmax).
  repeat split; try assumption.
  exists (0, 0, 0). split; [exact Hmax|]. split; [|reflexivity].
  cbn. lia.
Qed.

Lemma initColorTable_deterministic_witness :
  exists t,
    Palette.initColorTable X87 Palette.colorTable0 = Some t /\
    Palette.initColorTable X87 (replicate 801 (255, 255, 255)) = Some t /\
    Palette.initColorTable X87 t = Some t /\
    load t 0 = Some (0, 0, 0) /\
    exists c, load t MAX_ITER = Some c /\ within_rounding c (0, 0, 0) /\ c = (0, 0, 0).
Proof.
  apply (initColorTable_deterministic X87 Palette.colorTable0 (replicate 801 (255, 255, 255)));
    reflexivity.
Defined.

(** ** A concrete dispatch *)

Lemma row_major_covers (w h : Z) : covers w h (row_major w h).
Proof.
  intros x y. unfold row_major. rewrite list_elem_of_bind. split.
  - intros (y' & Hx & Hy). apply list_elem_of_bind in Hx as (x' & Hxy & Hx).
    apply list_elem_of_singleton in Hxy as [= -> ->].
    apply elem_of_seqZ in Hx, Hy. lia.
  - intros [Hx Hy]. exists y. split; [|apply elem_of_seqZ; lia].
    apply list_elem_of_bind. exists x. split; [|apply elem_of_seqZ; lia].
    apply list_elem_of_singleton. reflexivity.
Qed.

Lemma dispatch0_well_formed (dev : bool) : well_formed (dispatch0 dev).
Proof.
  split; [apply row_major_covers|].
  cbn [dispatch0 fresh]. unfold blank. rewrite length_replicate.
  unfold WIDTH, HEIGHT. lia.
Qed.

Lemma initial_image_length (tbl : list rgb) :
  Z.of_nat (length (image (initial tbl))) = WIDTH * HEIGHT * 3.
Proof. cbn [initial image]. rewrite length_replicate. unfold WIDTH, HEIGHT. lia. Qed.

(** ** The frame buffer after a generation *)

(** The default viewport maps pixel (481, 340) to a point well inside the
    set: the loop runs to the bound. *)
Lemma interior_pixel (dev : bool) :
  Kernel.mandelbrot_iter dev 481 340 WIDTH HEIGHT offsetX0 offsetY0 zoom0 MAX_ITER
  = Some MAX_ITER.
Proof. destruct dev; vm_compute; reflexivity. Qed.

(** C1, on the code: after the first generation of a run (default viewport,
    palette as [initColorTable] built it), pixel (481, 340), whose counter is
    [MAX_ITER] = 800, holds palette entry 800 mod 256 = 32, which is
    (0, 5, 76), and not palette entry 800, which is (0, 0, 0): the kernel
    hands the counter over reduced modulo 256. *)
Theorem interior_pixel_gets_entry_32 :
  forall (abi : long_double) (d : dispatch) (tbl : list rgb) (img : list Z),
    well_formed d ->
    Palette.initColorTable abi Palette.colorTable0 = Some tbl ->
    Z.of_nat (length img) = WIDTH * HEIGHT * 3 ->
    exists img',
      generateMandelbrot d (initial tbl) img = Some img' /\
      Kernel.mandelbrot_iter (fp64 d) 481 340 WIDTH HEIGHT offsetX0 offsetY0 zoom0 MAX_ITER
        = Some 800 /\
      pixel_at img' 481 340 = Some (0, 5, 76) /\
      load tbl 800 = Some (0, 0, 0) /\
      pixel_at img' 481 340 <> load tbl 800.
Proof.
  intros abi d tbl img Hd Htbl Himg.
  rewrite initColorTable_palette in Htbl by reflexivity. injection Htbl as <-.
  destruct (generateMandelbrot_spec d (initial (palette abi)) img Hd) as (img' & Hgen & _ & Hpix).
  { cbn [initial colorTable]. pose proof (palette_length abi). unfold MAX_ITER in *. lia. }
  { exact Himg. }
  destruct (Hpix 481 340) as (n & c & Hn & _ & Hc & Hpx); [unfold WIDTH; lia | unfold HEIGHT; lia |].
  cbn [initial offsetX offsetY zoom colorTable] in Hn, Hc.
  rewrite interior_pixel in Hn. injection Hn as <-.
  destruct (palette_entries abi) as (_ & H32 & H800).
  change (MAX_ITER mod 256) with 32 in Hc. rewrite H32 in Hc. injection Hc as <-.
  exists img'. repeat split; try assumption.
  - apply interior_pixel.
  - rewrite Hpx. change 800 with MAX_ITER. rewrite H800. discriminate.
Qed.

Lemma interior_pixel_gets_entry_32_witness :
  exists img',
    generateMandelbrot (dispatch0 true) (initial (palette X87))
      (image (initial (palette X87))) = Some img' /\
    Kernel.mandelbrot_iter true 481 340 WIDTH HEIGHT offsetX0 offsetY0 zoom0 MAX_ITER
      = Some 800 /\
    pixel_at img' 481 340 = Some (0, 5, 76) /\
    load (palette X87) 800 = Some (0, 0, 0) /\
    pixel_at img' 481 340 <> load (palette X87) 800.
Proof.
  apply (interior_pixel_gets_entry_32 X87 (dispatch0 true) (palette X87)
           (image (initial (palette X87)))).
  - apply dispatch0_well_formed.
  - apply initColorTable_palette. reflexivity.
  - apply initial_image_length.
Defined.

(** C10. The host colour loop never indexes the palette out of bounds: with
    a palette of [MAX_ITER + 1] = 801 entries, every cell of the buffer read
    back from the device holds a first byte in [0, 255], below the length of
    the palette, so that [colorTable[output[idx].s0]] is a valid access for
    every pixel of the raster; with checked accesses throughout, the whole
    generation succeeds. *)
Theorem palette_index_in_bounds :
  forall (d : dispatch) (st : state) (img : list Z),
    well_formed d ->
    Z.of_nat (length (colorTable st)) = MAX_ITER + 1 ->
    Z.of_nat (length img) = WIDTH * HEIGHT * 3 ->
    (exists out,
       enqueueNDRangeKernel (fp64 d) (schedule d) WIDTH HEIGHT
         (offsetX st) (offsetY st) (zoom st) MAX_ITER (fresh d) = Some out /\
       forall x y, 0 <= x < WIDTH -> 0 <= y < HEIGHT ->
         exists px c,
           load out (y * WIDTH + x) = Some px /\
           0 <= Kernel.s0 px <= 255 /\
           Kernel.s0 px < Z.of_nat (length (colorTable st)) /\
           load (colorTable st) (Kernel.s0 px) = Some c) /\
    is_Some (generateMandelbrot d st img).
Proof.
  intros d st img Hd Htbl Himg. split.
  - destruct Hd as [Hcov Hfresh].
    destruct (enqueue_spec (fp64 d) WIDTH HEIGHT (offsetX st) (offsetY st) (zoom st) MAX_ITER
                (schedule d) (fresh d)) as (out & Hrun & _ & Hset & _).
    { intros x y H. now apply Hcov. }
    { exact Hfresh. }
    exists out. split; [exact Hrun|]. intros x y Hx Hy.
    destruct (Hset x y) as (n & _ & Hn & Hcell); [now apply Hcov|].
    pose proof (to_uchar_rem_range n ltac:(lia)) as Hb.
    destruct (load_in_range (colorTable st) (Kernel.to_uchar (Z.rem n 256))) as [c Hc].
    { unfold MAX_ITER in Htbl. lia. }
    exists (Kernel.pack n), c. cbn [Kernel.pack Kernel.s0].
    unfold MAX_ITER in Htbl. repeat split; try assumption; lia.
  - destruct (generateMandelbrot_spec d st img Hd) as (img' & Hgen & _).
    + unfold MAX_ITER in Htbl. lia.
    + exact Himg.
    + rewrite Hgen. eauto.
Qed.

Lemma palette_index_in_bounds_witness :
  (exists out,
     enqueueNDRangeKernel true (row_major WIDTH HEIGHT) WIDTH HEIGHT
       offsetX0 offsetY0 zoom0 MAX_ITER blank = Some out /\
     forall x y, 0 <= x < WIDTH -> 0 <= y < HEIGHT ->
       exists px c,
         load out (y * WIDTH + x) = Some px /\
         0 <= Kernel.s0 px <= 255 /\
         Kernel.s0 px < Z.of_nat (length (palette X87)) /\
         load (palette X87) (Kernel.s0 px) = Some c) /\
  is_Some (generateMandelbrot (dispatch0 true) (initial (palette X87))
             (image (initial (palette X87)))).
Proof.
  apply (palette_index_in_bounds (dispatch0 true) (initial (palette X87))
           (image (initial (palette X87)))).
  - apply dispatch0_well_formed.
  - apply palette_length.
  - apply initial_image_length.
Defined.

(** C5. For every pixel [(x, y)] of the raster and every viewport, the
    coordinate the kernel iterates is
    [cx = (x - WIDTH/2) * (ASPECT_X / WIDTH / zoom) + offsetX] and
    [cy = (y - HEIGHT/2) * (ASPECT_Y / HEIGHT / zoom) + offsetY] with
    [ASPECT_X] = 3.5 and [ASPECT_Y] = 2.0: the range of the dispatch is
    [WIDTH] x [HEIGHT], and the cell of the work-item receives the packed
    counter of the escape loop run at that coordinate. *)
Theorem kernel_coordinate :
  forall (d : dispatch) (st : state) (x y : Z),
    well_formed d ->
    0 <= x < WIDTH -> 0 <= y < HEIGHT ->
    ASPECT_X (fp64 d) = IEEE.div (Kernel.lit (fp64 d)) (IEEE.of_Z (Kernel.lit (fp64 d)) 7)
                          (IEEE.of_Z (Kernel.lit (fp64 d)) 2) /\
    ASPECT_Y (fp64 d) = IEEE.of_Z (Kernel.lit (fp64 d)) 2 /\
    Kernel.cx_of (fp64 d) x WIDTH (offsetX st) (zoom st)
      = spec_cx (fp64 d) x (offsetX st) (zoom st) /\
    Kernel.cy_of (fp64 d) y HEIGHT (offsetY st) (zoom st)
      = spec_cy (fp64 d) y (offsetY st) (zoom st) /\
    exists out why r n,
      enqueueNDRangeKernel (fp64 d) (schedule d) WIDTH HEIGHT
        (offsetX st) (offsetY st) (zoom st) MAX_ITER (fresh d) = Some out /\
      Kernel.escape_loop (fp64 d) (spec_cx (fp64 d) x (offsetX st) (zoom st))
        (spec_cy (fp64 d) y (offsetY st) (zoom st)) MAX_ITER = Some (why, r, n) /\
      load out (y * WIDTH + x) = Some (Kernel.pack (Kernel.iter r)).
Proof.
  intros d st x y [Hcov Hfresh] Hx Hy.
  split; [destruct (fp64 d); reflexivity|].
  split; [destruct (fp64 d); reflexivity|].
  split; [reflexivity|]. split; [reflexivity|].
  destruct (enqueue_spec (fp64 d) WIDTH HEIGHT (offsetX st) (offsetY st) (zoom st) MAX_ITER
              (schedule d) (fresh d)) as (out & Hrun & _ & Hset & _).
  { intros x' y' H. now apply Hcov. }
  { exact Hfresh. }
  destruct (Hset x y) as (n & Hn & _ & Hcell); [now apply Hcov|].
  unfold Kernel.mandelbrot_iter in Hn.
  change (Kernel.cx_of (fp64 d) x WIDTH (offsetX st) (zoom st))
    with (spec_cx (fp64 d) x (offsetX st) (zoom st)) in Hn.
  change (Kernel.cy_of (fp64 d) y HEIGHT (offsetY st) (zoom st))
    with (spec_cy (fp64 d) y (offsetY st) (zoom st)) in Hn.
  destruct (Kernel.escape_loop _ _ _ _) as [[[why r] k]|] eqn:Hloop; [|discriminate].
  injection Hn as <-.
  exists out, why, r, k. repeat split; assumption.
Qed.

Lemma kernel_coordinate_witness :
  Kernel.cx_of true 481 WIDTH offsetX0 zoom0 = spec_cx true 481 offsetX0 zoom0 /\
  Kernel.cy_of true 340 HEIGHT offsetY0 zoom0 = spec_cy true 340 offsetY0 zoom0.
Proof.
  pose proof (kernel_coordinate (dispatch0 true) (initial (palette X87)) 481 340
                (dispatch0_well_formed true)) as H.
  destruct H as (_ & _ & Hcx & Hcy & _).
  - unfold WIDTH. lia.
  - unfold HEIGHT. lia.
  - split; [exact Hcx | exact Hcy].
Defined.

(** ** The coordinator *)

(** C3. A call of [generateMandelbrotAsync] while [isGenerating] is set is a
    no-op: it returns the state it was given, so the frame buffer, the flag,
    the viewport and the detached threads are what they were; nothing is
    queued and no thread is started. *)
Theorem request_while_generating_is_noop :
  forall st : state,
    isGenerating st = true ->
    generateMandelbrotAsync st = st /\
    image (generateMandelbrotAsync st) = image st /\
    isGenerating (generateMandelbrotAsync st) = true /\
    detached (generateMandelbrotAsync st) = detached st /\
    (offsetX (generateMandelbrotAsync st), offsetY (generateMandelbrotAsync st),
     zoom (generateMandelbrotAsync st)) = (offsetX st, offsetY st, zoom st).
Proof.
  intros st Hflag. unfold generateMandelbrotAsync. rewrite Hflag.
  repeat split. exact Hflag.
Qed.

Lemma request_while_generating_is_noop_witness :
  generateMandelbrotAsync (generateMandelbrotAsync (initial []))
  = generateMandelbrotAsync (initial []).
Proof.
  apply (request_while_generating_is_noop (generateMandelbrotAsync (initial []))).
  reflexivity.
Defined.

(** ** Magnitudes under rounding

    The number of binary digits of the mantissa plus the exponent, the
    magnitude of a finite value, is what decides whether a rounding to
    nearest underflows to zero. The lemmas below follow it through the
    operations of [SpecFloat]. *)

Section Rounding.

Lemma digits2_size (m : positive) : digits2_pos m = Pos.size m.
Proof. induction m as [m IH | m IH |]; cbn; congruence. Qed.

(** [Zdigits2] counts the binary digits. *)
Lemma Zdigits2_log2 (m : Z) : 0 < m -> Zdigits2 m = Z.log2 m + 1.
Proof.
  destruct m as [|m|m]; try lia. intros _. cbn [Zdigits2].
  rewrite digits2_size. destruct m; cbn; lia.
Qed.

Lemma Zdigits2_pos (m : Z) : 0 < m -> 1 <= Zdigits2 m.
Proof. intros H. rewrite Zdigits2_log2 by exact H. pose proof (Z.log2_nonneg m). lia. Qed.

Lemma Zdigits2_le (m n : Z) : 0 < m <= n -> Zdigits2 m <= Zdigits2 n.
Proof.
  intros H. rewrite !Zdigits2_log2 by lia.
  pose proof (Z.log2_le_mono m n). lia.
Qed.

Lemma Zdigits2_shiftl (m n : Z) : 0 < m -> 0 <= n -> Zdigits2 (Z.shiftl m n) = Zdigits2 m + n.
Proof.
  intros Hm Hn. assert (0 < Z.shiftl m n)
    by (rewrite Z.shiftl_mul_pow2 by lia; apply Z.mul_pos_pos; [lia | apply Z.pow_pos_nonneg; lia]).
  rewrite !Zdigits2_log2 by lia.
  rewrite Z.log2_shiftl by lia. lia.
Qed.

Lemma Zdigits2_shiftr (m n : Z) :
  0 < m -> 0 <= n < Zdigits2 m ->
  0 < Z.shiftr m n /\ Zdigits2 (Z.shiftr m n) = Zdigits2 m - n.
Proof.
  intros Hm Hn. rewrite Zdigits2_log2 in Hn by exact Hm.
  assert (Hpos : 0 < Z.shiftr m n).
  { rewrite Z.shiftr_div_pow2 by lia.
    apply Z.div_str_pos. split; [apply Z.pow_pos_nonneg; lia|].
    apply Z.log2_le_pow2; lia. }
  split; [exact Hpos|].
  rewrite !Zdigits2_log2 by lia.
  rewrite Z.log2_shiftr by lia. lia.
Qed.

Lemma Zdigits2_mul (m n : Z) :
  0 < m -> 0 < n -> Zdigits2 m + Zdigits2 n - 1 <= Zdigits2 (m * n).
Proof.
  intros Hm Hn. rewrite !Zdigits2_log2 by lia.
  pose proof (Z.log2_mul_below m n Hm Hn). lia.
Qed.

(** [shr_1] halves the mantissa. *)
Lemma shr_1_m (mrs : shr_record) : 0 <= shr_m mrs -> shr_m (shr_1 mrs) = Z.div2 (shr_m mrs).
Proof. destruct mrs as [[|[m|m|]|m] r s]; cbn; intros H; try reflexivity; lia. Qed.

Lemma iter_shr_1_m (n : positive) :
  forall mrs, 0 <= shr_m mrs ->
    shr_m (SpecFloat.iter_pos shr_1 n mrs) = Z.shiftr (shr_m mrs) (Z.pos n).
Proof.
  induction n as [n IH | n IH |]; intros mrs Hm; cbn [SpecFloat.iter_pos].
  - assert (H1 : 0 <= shr_m (shr_1 mrs))
      by (rewrite shr_1_m, Z.div2_spec by exact Hm; apply Z.shiftr_nonneg; exact Hm).
    assert (H2 : 0 <= shr_m (SpecFloat.iter_pos shr_1 n (shr_1 mrs)))
      by (rewrite IH by exact H1; apply Z.shiftr_nonneg; exact H1).
    rewrite (IH _ H2), (IH _ H1), shr_1_m, Z.div2_spec by exact Hm.
    rewrite !Z.shiftr_shiftr by lia. f_equal. lia.
  - assert (H2 : 0 <= shr_m (SpecFloat.iter_pos shr_1 n mrs))
      by (rewrite IH by exact Hm; apply Z.shiftr_nonneg; exact Hm).
    rewrite (IH _ H2), (IH _ Hm), Z.shiftr_shiftr by lia. f_equal. lia.
  - rewrite shr_1_m by exact Hm. apply Z.div2_spec.
Qed.

Lemma shr_m_of_loc (m : Z) (l : location) : shr_m (shr_record_of_loc m l) = m.
Proof. destruct l as [|[]]; reflexivity. Qed.

Variable prec emax : Z.
Hypothesis prec_pos : 1 <= prec.

Abbreviation emin := (emin prec emax).
Abbreviation fexp := (fexp prec emax).

(** The first component of [shr_fexp]: a positive mantissa of magnitude above
    [emin] stays positive, keeps its magnitude, and fits the precision. *)
Lemma shr_fexp_mag (m e : Z) (l : location) :
  0 < m -> emin + 1 <= Zdigits2 m + e ->
  exists mrs e',
    shr_fexp prec emax m e l = (mrs, e') /\
    0 < shr_m mrs /\
    Zdigits2 (shr_m mrs) + e' = Zdigits2 m + e /\
    e <= e' /\ fexp (Zdigits2 m + e) <= e'.
Proof.
  intros Hm Hmag. unfold shr_fexp, shr.
  destruct (fexp (Zdigits2 m + e) - e) as [|n|n] eqn:Hn.
  - do 2 eexists. split; [reflexivity|]. rewrite shr_m_of_loc. lia.
  - do 2 eexists. split; [reflexivity|].
    rewrite iter_shr_1_m, shr_m_of_loc by (rewrite shr_m_of_loc; lia).
    destruct (Zdigits2_shiftr m (Z.pos n) Hm) as [Hpos Hd].
    { unfold SpecFloat.fexp, SpecFloat.emin in *. lia. }
    lia.
  - do 2 eexists. split; [reflexivity|]. rewrite shr_m_of_loc. lia.
Qed.

Lemma round_nearest_even_range (m : Z) (l : location) :
  m <= round_nearest_even m l <= m + 1.
Proof. destruct l as [|[]]; cbn; try lia. destruct (Z.even m); lia. Qed.

(** None of the roundings to nearest of [binary_round_aux] yields a zero or a
    NaN for a positive mantissa of magnitude above [emin]; the magnitude does
    not decrease. *)
Lemma binary_round_aux_mag (s : bool) (m e : Z) (l : location) :
  0 < m -> emin + 1 <= Zdigits2 m + e ->
  binary_round_aux prec emax s m e l = S754_infinity s \/
  exists m' e',
    binary_round_aux prec emax s m e l = S754_finite s m' e' /\
    Zdigits2 m + e <= Zdigits2 (Z.pos m') + e' /\
    emin <= e' /\ Zdigits2 (Z.pos m') <= prec.
Proof.
  intros Hm Hmag. unfold binary_round_aux.
  destruct (shr_fexp_mag m e l Hm Hmag) as (mrs1 & e1 & -> & Hm1 & Hmag1 & He1 & Hf1).
  pose proof (round_nearest_even_range (shr_m mrs1) (loc_of_shr_record mrs1)) as Hr.
  set (m2 := round_nearest_even (shr_m mrs1) (loc_of_shr_record mrs1)) in *.
  assert (Hd2 : Zdigits2 (shr_m mrs1) <= Zdigits2 m2) by (apply Zdigits2_le; lia).
  destruct (shr_fexp_mag m2 e1 loc_Exact) as (mrs3 & e3 & -> & Hm3 & Hmag3 & He3 & Hf3);
    [lia | lia |].
  destruct (shr_m mrs3) as [|m3|m3] eqn:Hs3; try lia.
  destruct (e3 <=? emax - prec); [right | now left].
  exists m3, e3. split; [reflexivity|].
  unfold SpecFloat.fexp, SpecFloat.emin in *. lia.
Qed.

Lemma digits2_iter_xO (m d : positive) :
  Z.pos (digits2_pos (Pos.iter xO m d)) = Z.pos (digits2_pos m) + Z.pos d.
Proof.
  induction d as [|d IH] using Pos.peano_ind.
  - cbn. lia.
  - rewrite Pos.iter_succ. cbn [digits2_pos]. lia.
Qed.

Lemma shl_align_mag (m : positive) (e e' : Z) :
  Zdigits2 (Z.pos (fst (shl_align m e e'))) + snd (shl_align m e e')
  = Zdigits2 (Z.pos m) + e.
Proof.
  unfold shl_align. destruct (e' - e) as [|d|d] eqn:Hd; try reflexivity.
  cbn [fst snd Zdigits2]. rewrite digits2_iter_xO. lia.
Qed.

Lemma binary_round_mag (s : bool) (m : positive) (e : Z) :
  emin + 1 <= Zdigits2 (Z.pos m) + e ->
  binary_round prec emax s m e = S754_infinity s \/
  exists m' e',
    binary_round prec emax s m e = S754_finite s m' e' /\
    Zdigits2 (Z.pos m) + e <= Zdigits2 (Z.pos m') + e' /\
    emin <= e' /\ Zdigits2 (Z.pos m') <= prec.
Proof.
  intros Hmag. unfold binary_round.
  pose proof (shl_align_mag m e (fexp (Z.pos (digits2_pos m) + e))) as Hal.
  destruct (shl_align m e _) as [m1 e1]. cbn [fst snd] in Hal.
  destruct (binary_round_aux_mag s (Z.pos m1) e1 loc_Exact) as [-> | (m' & e' & -> & H)];
    [lia | lia | now left | right].
  exists m', e'. split; [reflexivity|]. lia.
Qed.

Lemma Zdigits2_bounds (m : Z) : 0 < m -> 2 ^ (Zdigits2 m - 1) <= m < 2 ^ Zdigits2 m.
Proof.
  intros Hm. rewrite Zdigits2_log2 by exact Hm.
  pose proof (Z.log2_spec m Hm) as H.
  replace (Z.log2 m + 1 - 1) with (Z.log2 m) by lia.
  replace (Z.log2 m + 1) with (Z.succ (Z.log2 m)) by lia. exact H.
Qed.

Lemma Zdigits2_ge (m k : Z) : 0 <= k -> 2 ^ k <= m -> k + 1 <= Zdigits2 m.
Proof.
  intros Hk H. assert (Hm : 0 < m) by (pose proof (Z.pow_pos_nonneg 2 k); lia).
  rewrite Zdigits2_log2 by exact Hm.
  apply Z.log2_le_pow2 in H; lia.
Qed.

(** A product of finite values whose magnitudes add up above [emin]. *)
Lemma SFmul_mag (s1 s2 : bool) (m1 m2 : positive) (e1 e2 : Z) :
  emin + 2 <= (Zdigits2 (Z.pos m1) + e1) + (Zdigits2 (Z.pos m2) + e2) ->
  SFmul prec emax (S754_finite s1 m1 e1) (S754_finite s2 m2 e2) = S754_infinity (xorb s1 s2) \/
  exists m' e',
    SFmul prec emax (S754_finite s1 m1 e1) (S754_finite s2 m2 e2)
      = S754_finite (xorb s1 s2) m' e' /\
    (Zdigits2 (Z.pos m1) + e1) + (Zdigits2 (Z.pos m2) + e2) - 1 <= Zdigits2 (Z.pos m') + e' /\
    emin <= e' /\ Zdigits2 (Z.pos m') <= prec.
Proof.
  intros Hmag. cbn [SFmul].
  pose proof (Zdigits2_mul (Z.pos m1) (Z.pos m2) ltac:(lia) ltac:(lia)) as Hd.
  rewrite <- Pos2Z.inj_mul in Hd.
  destruct (binary_round_aux_mag (xorb s1 s2) (Z.pos (m1 * m2)) (e1 + e2) loc_Exact)
    as [-> | (m' & e' & -> & H)]; [lia | lia | now left | right].
  exists m', e'. split; [reflexivity|]. lia.
Qed.

(** A quotient of finite values, the dividend fitting the precision, whose
    magnitudes differ by more than [emin + prec]. *)
Lemma SFdiv_mag (s1 s2 : bool) (m1 m2 : positive) (e1 e2 : Z) :
  Zdigits2 (Z.pos m1) <= prec ->
  emin + prec <= (Zdigits2 (Z.pos m1) + e1) - (Zdigits2 (Z.pos m2) + e2) ->
  SFdiv prec emax (S754_finite s1 m1 e1) (S754_finite s2 m2 e2) = S754_infinity (xorb s1 s2) \/
  exists m' e',
    SFdiv prec emax (S754_finite s1 m1 e1) (S754_finite s2 m2 e2)
      = S754_finite (xorb s1 s2) m' e' /\
    (Zdigits2 (Z.pos m1) + e1) - (Zdigits2 (Z.pos m2) + e2) <= Zdigits2 (Z.pos m') + e' /\
    emin <= e' /\ Zdigits2 (Z.pos m') <= prec.
Proof.
  intros Hfit Hmag. cbn [SFdiv]. unfold SFdiv_core_binary.
  pose proof (Zdigits2_pos (Z.pos m1) ltac:(lia)) as Hd1.
  pose proof (Zdigits2_pos (Z.pos m2) ltac:(lia)) as Hd2.
  set (d1 := Zdigits2 (Z.pos m1)) in *. set (d2 := Zdigits2 (Z.pos m2)) in *.
  assert (He : Z.min (fexp (d1 + e1 - (d2 + e2))) (e1 - e2) = d1 + e1 - (d2 + e2) - prec)
    by (unfold SpecFloat.fexp, SpecFloat.emin in *; lia).
  rewrite He.
  replace (e1 - e2 - (d1 + e1 - (d2 + e2) - prec)) with (prec + d2 - d1) by lia.
  destruct (prec + d2 - d1) as [|k|k] eqn:Hk; try lia.
  rewrite <- Hk.
  assert (Hdm : Zdigits2 (Z.shiftl (Z.pos m1) (prec + d2 - d1)) = prec + d2)
    by (rewrite Zdigits2_shiftl by lia; fold d1; lia).
  assert (Hm' : 0 < Z.shiftl (Z.pos m1) (prec + d2 - d1))
    by (rewrite Z.shiftl_mul_pow2 by lia; apply Z.mul_pos_pos;
        [lia | apply Z.pow_pos_nonneg; lia]).
  set (m' := Z.shiftl (Z.pos m1) (prec + d2 - d1)) in *.
  pose proof (Zdigits2_bounds m' Hm') as Hb'. rewrite Hdm in Hb'.
  pose proof (Zdigits2_bounds (Z.pos m2) ltac:(lia)) as Hb2. fold d2 in Hb2.
  assert (Hq : 2 ^ (prec - 1) <= m' / Z.pos m2).
  { apply Z.div_le_lower_bound; [lia|].
    replace (prec + d2 - 1) with (d2 + (prec - 1)) in Hb' by lia.
    rewrite Z.pow_add_r in Hb' by lia.
    pose proof (Z.pow_pos_nonneg 2 (prec - 1) ltac:(lia) ltac:(lia)). nia. }
  unfold Z.div in Hq. destruct (Z.div_eucl m' (Z.pos m2)) as [q r]. cbn [fst] in Hq.
  pose proof (Zdigits2_ge q (prec - 1) ltac:(lia) Hq) as Hdq.
  assert (Hqpos : 0 < q) by (pose proof (Z.pow_pos_nonneg 2 (prec - 1)); lia).
  destruct (binary_round_aux_mag (xorb s1 s2) q (d1 + e1 - (d2 + e2) - prec)
              (new_location (Z.pos m2) r))
    as [-> | (m3 & e3 & -> & H)]; [lia | lia | now left | right].
  exists m3, e3. split; [reflexivity|]. lia.
Qed.

End Rounding.

(** ** The viewport under key events *)

Section Zoom.
Variable abi : long_double.

Lemma ld_params : 53 <= IEEE.prec (ld_format abi) /\ 1024 <= IEEE.emax (ld_format abi).
Proof. destruct abi; cbn; lia. Qed.

Lemma zoom_factor_finite :
  exists m e, zoom_factor abi = S754_finite false m e /\ Zdigits2 (Z.pos m) + e = 1.
Proof. destruct abi; vm_compute; do 2 eexists; split; reflexivity. Qed.

Lemma convert_finite (f : IEEE.format) (s : bool) (m : positive) (e : Z) :
  IEEE.convert f (S754_finite s m e) = binary_round (IEEE.prec f) (IEEE.emax f) s m e.
Proof. reflexivity. Qed.

Lemma positive_zoom_gt (z : spec_float) : positive_zoom z -> IEEE.gt z f32_zero = true.
Proof. intros [-> | (m & e & -> & _)]; reflexivity. Qed.

Lemma convert_f32_positive (m : positive) (e : Z) :
  -148 <= Zdigits2 (Z.pos m) + e ->
  positive_zoom (IEEE.convert IEEE.binary32 (S754_finite false m e)).
Proof.
  intros Hmag. cbn [IEEE.convert IEEE.binary32 IEEE.prec IEEE.emax].
  destruct (binary_round_mag 24 128 ltac:(lia) false m e) as [-> | (m' & e' & -> & _ & He & _)].
  - unfold SpecFloat.emin. lia.
  - now left.
  - right. exists m', e'. split; [reflexivity|]. unfold SpecFloat.emin in He. lia.
Qed.

Lemma zoom_in_positive (z : spec_float) : positive_zoom z -> positive_zoom (zoom_in abi z).
Proof.
  intros [-> | (m & e & -> & He)].
  - left. destruct abi; reflexivity.
  - destruct ld_params as [Hp Hx]. destruct zoom_factor_finite as (mc & ec & Hc & Hmc).
    pose proof (Zdigits2_pos (Z.pos m) ltac:(lia)) as Hd.
    unfold zoom_in. rewrite Hc. unfold IEEE.mul.
    rewrite (convert_finite (ld_format abi)).
    destruct (binary_round_mag (IEEE.prec (ld_format abi)) (IEEE.emax (ld_format abi))
                ltac:(lia) false m e) as [-> | (m1 & e1 & -> & Hm1 & _ & _)].
    + unfold SpecFloat.emin. lia.
    + left. reflexivity.
    + destruct (SFmul_mag (IEEE.prec (ld_format abi)) (IEEE.emax (ld_format abi))
                  ltac:(lia) false false m1 mc e1 ec) as [-> | (m2 & e2 & -> & Hm2 & _ & _)].
      * unfold SpecFloat.emin. lia.
      * left. reflexivity.
      * apply convert_f32_positive. lia.
Qed.

Lemma zoom_out_positive (z : spec_float) : positive_zoom z -> positive_zoom (zoom_out abi z).
Proof.
  intros [-> | (m & e & -> & He)].
  - left. destruct abi; reflexivity.
  - destruct ld_params as [Hp Hx]. destruct zoom_factor_finite as (mc & ec & Hc & Hmc).
    pose proof (Zdigits2_pos (Z.pos m) ltac:(lia)) as Hd.
    destruct (Z.eq_dec (Zdigits2 (Z.pos m) + e) (-148)) as [Hmin | Hbig].
    + (* the least positive binary32 value *)
      assert (Hm : m = 1%positive).
      { pose proof (Zdigits2_bounds (Z.pos m) ltac:(lia)) as Hb.
        replace (Zdigits2 (Z.pos m)) with 1 in Hb by lia. cbn in Hb. lia. }
      assert (e = -149) by (subst m; cbn in Hmin; lia). subst m e.
      right. destruct abi; vm_compute; do 2 eexists; (split; [reflexivity | discriminate]).
    + unfold zoom_out. rewrite Hc. unfold IEEE.div.
      rewrite (convert_finite (ld_format abi)).
      destruct (binary_round_mag (IEEE.prec (ld_format abi)) (IEEE.emax (ld_format abi))
                  ltac:(lia) false m e) as [-> | (m1 & e1 & -> & Hm1 & _ & Hfit)].
      * unfold SpecFloat.emin. lia.
      * left. reflexivity.
      * destruct (SFdiv_mag (IEEE.prec (ld_format abi)) (IEEE.emax (ld_format abi))
                    ltac:(lia) false false m1 mc e1 ec Hfit)
          as [-> | (m2 & e2 & -> & Hm2 & _ & _)].
        -- unfold SpecFloat.emin. lia.
        -- left. reflexivity.
        -- apply convert_f32_positive. lia.
Qed.

Lemma key_down_zoom_positive (k : keysym) (st : state) :
  positive_zoom (zoom st) -> positive_zoom (zoom (key_down abi k st)).
Proof.
  intros H. destruct k; cbn [key_down zoom set_needsRedraw set_offsetX set_offsetY set_zoom];
    try exact H.
  - now apply zoom_in_positive.
  - now apply zoom_out_positive.
Qed.

Lemma handle_event_zoom_positive (e : event) (qs : bool * state) :
  positive_zoom (zoom (snd qs)) -> positive_zoom (zoom (snd (handle_event abi e qs))).
Proof.
  intros H. destruct e as [|k|]; cbn [handle_event snd]; try exact H.
  now apply key_down_zoom_positive.
Qed.

Lemma events_zoom_positive (evs : list event) :
  forall qs, positive_zoom (zoom (snd qs)) ->
             positive_zoom (zoom (snd (events abi evs qs))).
Proof.
  induction evs as [|e evs IH]; intros qs H; [exact H|].
  cbn [events fold_left]. apply IH. now apply handle_event_zoom_positive.
Qed.

End Zoom.

(** C7. The invariant [zoom > 0] is preserved by every input transition:
    from the initial zoom 0.5, every finite sequence of events (pans,
    zoom-ins [zoom *= 1.05L], zoom-outs [zoom /= 1.05L], and the events the
    switch ignores) leaves [zoom] strictly positive. Repeated zoom-outs stop
    at a positive subnormal value, repeated zoom-ins at +infinity; [zoom] is
    never zero, negative or NaN. *)
Theorem zoom_stays_positive :
  forall (abi : long_double) (evs : list event) (tbl : list rgb),
    IEEE.gt (zoom (snd (events abi evs (false, initial tbl)))) f32_zero = true /\
    positive_zoom (zoom (snd (events abi evs (false, initial tbl)))).
Proof.
  intros abi evs tbl.
  assert (H : positive_zoom (zoom (snd (events abi evs (false, initial tbl))))).
  { apply events_zoom_positive. right. cbn [snd initial zoom].
    exists 8388608%positive, (-24). split; [reflexivity | lia]. }
  split; [apply positive_zoom_gt; exact H | exact H].
Qed.

(** ** Panning *)

Lemma pan_right_left (abi : long_double) (st : state) :
  let st' := key_down abi SDLK_a (key_down abi SDLK_d st) in
  zoom st' = zoom st /\ offsetY st' = offsetY st /\
  pan_step (key_down abi SDLK_d st) = pan_step st /\
  offsetX st' =
    IEEE.sub IEEE.binary32 (IEEE.add IEEE.binary32 (offsetX st) (pan_step st)) (pan_step st).
Proof. destruct st. repeat split. Qed.

Lemma pan_right (abi : long_double) (st : state) :
  zoom (key_down abi SDLK_d st) = zoom st /\
  offsetX (key_down abi SDLK_d st) = IEEE.add IEEE.binary32 (offsetX st) (pan_step st).
Proof. destruct st. split; reflexivity. Qed.

(** After four pans to the right from the initial viewport, [offsetX] is
    12626852 * 2^-27 and the step is 0.2f = 13421773 * 2^-26: their sum is a
    tie between two binary32 values and rounds to 9867600 * 2^-25, from
    which the subtraction of the step gives 12626854 * 2^-27. *)
Lemma four_pans_right (abi : long_double) (tbl : list rgb) :
  let st := keys abi [SDLK_d; SDLK_d; SDLK_d; SDLK_d] (initial tbl) in
  offsetX st = S754_finite false 12626852 (-27) /\
  pan_step st = S754_finite false 13421773 (-26) /\
  offsetX (key_down abi SDLK_d st) = S754_finite false 9867600 (-25) /\
  offsetX (key_down abi SDLK_a (key_down abi SDLK_d st)) = S754_finite false 12626854 (-27).
Proof.
  cbn [keys fold_left].
  set (st := key_down abi SDLK_d (key_down abi SDLK_d (key_down abi SDLK_d
               (key_down abi SDLK_d (initial tbl))))).
  assert (Hz : zoom st = zoom0) by reflexivity.
  assert (Hx : offsetX st = S754_finite false 12626852 (-27)) by (vm_compute; reflexivity).
  assert (Hs : pan_step st = S754_finite false 13421773 (-26))
    by (unfold pan_step; rewrite Hz; vm_compute; reflexivity).
  destruct (pan_right_left abi st) as (_ & _ & _ & Hrt).
  destruct (pan_right abi st) as (_ & Hr).
  rewrite Hr, Hrt, Hx, Hs. repeat split; vm_compute; reflexivity.
Qed.

(** C8, as stated: from every viewport state, pan-right followed by
    pan-left restores [offsetX] exactly. This fails in the state reached
    from the initial viewport by four pans to the right. *)
Lemma pan_round_trip_not_exact :
  ~ (forall (abi : long_double) (st : state),
       offsetX (key_down abi SDLK_a (key_down abi SDLK_d st)) = offsetX st).
Proof.
  intros H.
  destruct (four_pans_right X87 []) as (Hx & _ & _ & Hrt).
  rewrite H, Hx in Hrt. discriminate.
Qed.

(** C8, amended: pan-right followed by pan-left, with no zoom change in
    between, leaves [zoom] and [offsetY] as they were and uses the same step
    [s = 0.1f / zoom] both times, so that [offsetX] becomes
    [(offsetX + s) - s] in binary32 arithmetic; from the initial viewport
    this is [offsetX] exactly. (In other states the two roundings may leave
    a difference in the last bits.) *)
Theorem pan_round_trip :
  forall (abi : long_double) (st : state) (tbl : list rgb),
    let back := fun s => key_down abi SDLK_a (key_down abi SDLK_d s) in
    zoom (back st) = zoom st /\
    offsetY (back st) = offsetY st /\
    pan_step (key_down abi SDLK_d st) = pan_step st /\
    offsetX (back st) =
      IEEE.sub IEEE.binary32 (IEEE.add IEEE.binary32 (offsetX st) (pan_step st)) (pan_step st) /\
    offsetX (back (initial tbl)) = offsetX (initial tbl).
Proof.
  intros abi st tbl back. subst back. cbv beta.
  destruct (pan_right_left abi st) as (Hz & Hy & Hs & Hx).
  split; [exact Hz|]. split; [exact Hy|]. split; [exact Hs|]. split; [exact Hx|].
  destruct (pan_right_left abi (initial tbl)) as (_ & _ & _ & ->).
  cbn [initial offsetX pan_step zoom]. vm_compute. reflexivity.
Qed.

(** * Further properties of the code *)

(** ** The escape loop as an escape time *)

Section EscapeTime.
Import Kernel.
Variable dev : bool.
Variables cx cy : spec_float.

Lemma loop_pass_unfold (m : Z) (r : regs) :
  loop_pass dev cx cy m r =
  if iter r <? m
  then if escapes dev r then Escaped r else Next (advance dev cx cy r)
  else Exhausted r.
Proof. reflexivity. Qed.

Lemma orbit_S (k : nat) : orbit dev cx cy (S k) = advance dev cx cy (orbit dev cx cy k).
Proof. reflexivity. Qed.

Lemma orbit_iter (k : nat) : iter (orbit dev cx cy k) = Z.of_nat k.
Proof.
  induction k as [|k IH]; [reflexivity|].
  rewrite orbit_S. cbn [advance iter]. lia.
Qed.

(** From the registers of pass [j], the loop stops at the first pass whose
    registers pass the test, or at the bound. *)
Lemma run_loop_orbit (m : Z) :
  forall (fuel j : nat),
    (Z.to_nat (m - Z.of_nat j) < fuel)%nat ->
    exists why n,
      run_loop dev fuel cx cy m (orbit dev cx cy j)
        = Some (why, orbit dev cx cy (j + n), n) /\
      (forall k, (j <= k < j + n)%nat -> escapes dev (orbit dev cx cy k) = false) /\
      match why with
      | ByEscape => escapes dev (orbit dev cx cy (j + n)) = true /\ Z.of_nat (j + n) < m
      | ByBound => m <= Z.of_nat (j + n) /\ (n = O \/ Z.of_nat (j + n) = m)
      end.
Proof.
  induction fuel as [|fuel IH]; intros j Hfuel; [lia|].
  rewrite run_loop_step, loop_pass_unfold, orbit_iter.
  destruct (Z.of_nat j <? m) eqn:Hg.
  - apply Z.ltb_lt in Hg.
    destruct (escapes dev (orbit dev cx cy j)) eqn:Hesc.
    + exists ByEscape, O. rewrite Nat.add_0_r. split; [reflexivity|].
      split; [intros k Hk; lia | split; [exact Hesc | exact Hg]].
    + rewrite <- orbit_S.
      destruct (IH (S j)) as (why & n & -> & Hbelow & Hwhy); [lia|].
      exists why, (S n). replace (j + S n)%nat with (S j + n)%nat by lia.
      split; [reflexivity|]. split.
      * intros k Hk. destruct (Nat.eq_dec k j) as [-> | Hne]; [exact Hesc|].
        apply Hbelow. lia.
      * destruct why; [exact Hwhy|]. destruct Hwhy as [Hm Hn].
        split; [exact Hm|]. right. lia.
  - apply Z.ltb_ge in Hg. exists ByBound, O. rewrite Nat.add_0_r.
    split; [reflexivity|]. split; [intros k Hk; lia|]. split; [exact Hg | now left].
Qed.

Lemma escape_loop_orbit (m : Z) :
  exists why n,
    escape_loop dev cx cy m = Some (why, orbit dev cx cy n, n) /\
    (forall k, (k < n)%nat -> escapes dev (orbit dev cx cy k) = false) /\
    match why with
    | ByEscape => escapes dev (orbit dev cx cy n) = true /\ Z.of_nat n < m
    | ByBound => Z.of_nat n = Z.max 0 m
    end.
Proof.
  destruct (run_loop_orbit m (S (Z.to_nat m)) O) as (why & n & Hrun & Hbelow & Hwhy); [lia|].
  exists why, n. cbn [Nat.add] in *. split; [exact Hrun|].
  split; [intros k Hk; apply Hbelow; lia|].
  destruct why; [exact Hwhy|]. destruct Hwhy as [Hm [-> | Hn]]; lia.
Qed.

(** The number of passes is determined by the tests along the orbit. *)
Lemma escape_time_unique (m : Z) (n n' : nat) :
  (forall k, (k < n)%nat -> escapes dev (orbit dev cx cy k) = false) ->
  (forall k, (k < n')%nat -> escapes dev (orbit dev cx cy k) = false) ->
  (escapes dev (orbit dev cx cy n) = true \/ Z.max 0 m <= Z.of_nat n) ->
  (escapes dev (orbit dev cx cy n') = true /\ Z.of_nat n' < m \/ Z.of_nat n' = Z.max 0 m) ->
  (n' <= n)%nat.
Proof.
  intros Hn Hn' Hstop Hstop'.
  destruct (Nat.le_gt_cases n' n) as [Hle | Hgt]; [exact Hle | exfalso].
  destruct Hstop as [Hesc | Hm].
  - rewrite Hn' in Hesc by exact Hgt. discriminate.
  - destruct Hstop' as [[_ Hlt] | Heq]; lia.
Qed.

End EscapeTime.

(** X1. The counter the kernel computes is an escape time: with [c] the
    coordinate of the work-item and [orbit k] the registers after [k] passes,
    the loop makes [n] passes where [n] is the first index at which the test
    [zx*zx + zy*zy > 4.0] holds on [orbit n], provided [n < max_iter], and
    [max_iter] (0 for a negative bound) when the test fails on every
    [orbit k] below the bound; the counter stored is [n]. *)
Theorem counter_is_escape_time :
  forall (dev : bool) (x y w h : Z) (ox oy zm : spec_float) (m : Z),
    let cx := Kernel.cx_of dev x w ox zm in
    let cy := Kernel.cy_of dev y h oy zm in
    exists why n,
      Kernel.escape_loop dev cx cy m = Some (why, orbit dev cx cy n, n) /\
      Kernel.mandelbrot_iter dev x y w h ox oy zm m = Some (Z.of_nat n) /\
      (forall k, (k < n)%nat -> escapes dev (orbit dev cx cy k) = false) /\
      match why with
      | Kernel.ByEscape => escapes dev (orbit dev cx cy n) = true /\ Z.of_nat n < m
      | Kernel.ByBound => Z.of_nat n = Z.max 0 m
      end.
Proof.
  intros dev x y w h ox oy zm m cx cy.
  destruct (escape_loop_orbit dev cx cy m) as (why & n & Hrun & Hbelow & Hwhy).
  exists why, n. split; [exact Hrun|]. split; [|split; assumption].
  unfold Kernel.mandelbrot_iter. fold cx cy. rewrite Hrun, orbit_iter. reflexivity.
Qed.

Lemma mandelbrot_iter_orbit (dev : bool) (x y w h : Z) (ox oy zm : spec_float) (m : Z) :
  exists why n,
    Kernel.mandelbrot_iter dev x y w h ox oy zm m = Some (Z.of_nat n) /\
    (forall k, (k < n)%nat ->
       escapes dev (orbit dev (Kernel.cx_of dev x w ox zm) (Kernel.cy_of dev y h oy zm) k)
       = false) /\
    match why with
    | Kernel.ByEscape =>
        escapes dev (orbit dev (Kernel.cx_of dev x w ox zm) (Kernel.cy_of dev y h oy zm) n)
        = true /\ Z.of_nat n < m
    | Kernel.ByBound => Z.of_nat n = Z.max 0 m
    end.
Proof.
  destruct (escape_loop_orbit dev (Kernel.cx_of dev x w ox zm) (Kernel.cy_of dev y h oy zm) m)
    as (why & n & Hrun & Hbelow & Hwhy).
  exists why, n. split; [|split; assumption].
  unfold Kernel.mandelbrot_iter. rewrite Hrun, orbit_iter. reflexivity.
Qed.

(** X2. Lowering the bound only truncates the counter: for
    [0 <= m <= m'], the counter under the bound [m] is the minimum of [m]
    and the counter under the bound [m']. A pixel that escapes under the
    smaller bound keeps its counter under every larger one. *)
Theorem counter_truncates :
  forall (dev : bool) (x y w h : Z) (ox oy zm : spec_float) (m m' : Z),
    0 <= m <= m' ->
    exists n',
      Kernel.mandelbrot_iter dev x y w h ox oy zm m' = Some n' /\
      Kernel.mandelbrot_iter dev x y w h ox oy zm m = Some (Z.min m n').
Proof.
  intros dev x y w h ox oy zm m m' Hm.
  destruct (mandelbrot_iter_orbit dev x y w h ox oy zm m') as (why' & n' & Hrun' & Hb' & Hw').
  destruct (mandelbrot_iter_orbit dev x y w h ox oy zm m) as (why & n & Hrun & Hb & Hw).
  exists (Z.of_nat n'). split; [exact Hrun'|]. rewrite Hrun. f_equal.
  set (cx := Kernel.cx_of dev x w ox zm) in *. set (cy := Kernel.cy_of dev y h oy zm) in *.
  assert (Hle : (n <= n')%nat).
  { apply (escape_time_unique dev cx cy m n' n Hb' Hb).
    - destruct why'; [left; apply Hw' | right; lia].
    - destruct why; [left; exact Hw | right; exact Hw]. }
  destruct why.
  - assert (Hge : (n' <= n)%nat).
    { apply (escape_time_unique dev cx cy m' n n' Hb Hb').
      - left. apply Hw.
      - destruct why'; [left; exact Hw' | right; exact Hw']. }
    lia.
  - lia.
Qed.

Lemma counter_truncates_witness :
  exists n',
    Kernel.mandelbrot_iter true 481 340 WIDTH HEIGHT offsetX0 offsetY0 zoom0 MAX_ITER = Some n' /\
    Kernel.mandelbrot_iter true 481 340 WIDTH HEIGHT offsetX0 offsetY0 zoom0 100
      = Some (Z.min 100 n').
Proof.
  apply (counter_truncates true 481 340 WIDTH HEIGHT offsetX0 offsetY0 zoom0 100 MAX_ITER).
  unfold MAX_ITER. lia.
Defined.

Lemma init_does_not_escape (dev : bool) (cx cy : spec_float) :
  escapes dev (orbit dev cx cy O) = false.
Proof. destruct dev; reflexivity. Qed.

(** X3. With a bound of at least 1 the counter is at least 1: the first
    test is made on [z = 0] and fails, whatever the coordinate, NaN and
    infinities included. *)
Theorem counter_at_least_one :
  forall (dev : bool) (x y w h : Z) (ox oy zm : spec_float) (m : Z),
    1 <= m ->
    exists n,
      Kernel.mandelbrot_iter dev x y w h ox oy zm m = Some n /\ 1 <= n <= m.
Proof.
  intros dev x y w h ox oy zm m Hm.
  destruct (mandelbrot_iter_orbit dev x y w h ox oy zm m) as (why & n & Hrun & _ & Hw).
  exists (Z.of_nat n). split; [exact Hrun|].
  destruct n as [|n].
  - destruct why; [|lia]. rewrite init_does_not_escape in Hw. destruct Hw. discriminate.
  - destruct why; lia.
Qed.

Lemma counter_at_least_one_witness :
  exists n,
    Kernel.mandelbrot_iter true 0 0 WIDTH HEIGHT offsetX0 offsetY0 zoom0 MAX_ITER = Some n /\
    1 <= n <= MAX_ITER.
Proof.
  apply (counter_at_least_one true 0 0 WIDTH HEIGHT offsetX0 offsetY0 zoom0 MAX_ITER).
  unfold MAX_ITER. lia.
Defined.

(** ** NaN coordinates *)

Section NaN.
Import IEEE Kernel.
Variable dev : bool.

Lemma add_nan_r (f : format) (x : spec_float) : add f x S754_nan = S754_nan.
Proof. destruct x; reflexivity. Qed.

Lemma mul_nan_r (f : format) (x : spec_float) : mul f x S754_nan = S754_nan.
Proof. destruct x; reflexivity. Qed.

Lemma div_nan_r (f : format) (x : spec_float) : div f x S754_nan = S754_nan.
Proof. destruct x; reflexivity. Qed.

Lemma escapes_nan (r : regs) :
  zx r = S754_nan \/ zy r = S754_nan -> escapes dev r = false.
Proof.
  assert (Hgt : forall y, gt S754_nan y = false) by (intros y; destruct y; reflexivity).
  intros [H | H]; unfold escapes; rewrite H.
  - apply Hgt.
  - change (mul binary32 S754_nan S754_nan) with S754_nan.
    rewrite add_nan_r. apply Hgt.
Qed.

Lemma orbit_nan (cx cy : spec_float) (k : nat) :
  cx = S754_nan \/ cy = S754_nan ->
  zx (orbit dev cx cy (S k)) = S754_nan \/ zy (orbit dev cx cy (S k)) = S754_nan.
Proof.
  intros [-> | ->]; rewrite orbit_S; cbn [advance zx zy].
  - left. apply add_nan_r.
  - right. cbn [convert]. rewrite add_nan_r. reflexivity.
Qed.

Lemma coordinate_nan (p extent : Z) (a offset zm : spec_float) :
  offset = S754_nan \/ zm = S754_nan ->
  coord p extent (scale dev a extent zm) offset = S754_nan.
Proof.
  intros [-> | ->]; unfold coord.
  - apply add_nan_r.
  - unfold scale. cbn [convert]. rewrite div_nan_r. cbn [convert].
    rewrite mul_nan_r. reflexivity.
Qed.

End NaN.

Lemma nan_runs_to_bound (dev : bool) (x y w h : Z) (ox oy zm : spec_float) (m : Z) :
  0 <= m ->
  ox = S754_nan \/ oy = S754_nan \/ zm = S754_nan ->
  Kernel.mandelbrot_iter dev x y w h ox oy zm m = Some m.
Proof.
  intros Hm Hnan.
  assert (Hc : Kernel.cx_of dev x w ox zm = S754_nan \/ Kernel.cy_of dev y h oy zm = S754_nan).
  { unfold Kernel.cx_of, Kernel.cy_of.
    destruct Hnan as [H | [H | H]].
    - left. apply coordinate_nan. now left.
    - right. apply coordinate_nan. now left.
    - left. apply coordinate_nan. now right. }
  destruct (mandelbrot_iter_orbit dev x y w h ox oy zm m) as (why & n & Hrun & _ & Hw).
  rewrite Hrun. f_equal. destruct why; [|lia].
  destruct Hw as [Hesc _]. exfalso.
  destruct n as [|n].
  - rewrite init_does_not_escape in Hesc. discriminate.
  - rewrite escapes_nan in Hesc; [discriminate|]. apply orbit_nan. exact Hc.
Qed.

(** X4. A NaN never escapes: when [offsetX], [offsetY] or [zoom] is a NaN,
    every test [zx*zx + zy*zy > 4.0] is false, the loop runs to the bound
    and the counter of every work-item is [max_iter]. *)
Theorem nan_viewport_runs_to_bound :
  forall (dev : bool) (x y w h : Z) (ox oy zm : spec_float) (m : Z),
    0 <= m ->
    ox = S754_nan \/ oy = S754_nan \/ zm = S754_nan ->
    Kernel.mandelbrot_iter dev x y w h ox oy zm m = Some m.
Proof. intros. now apply nan_runs_to_bound. Qed.

Lemma nan_viewport_runs_to_bound_witness :
  Kernel.mandelbrot_iter true 10 20 WIDTH HEIGHT S754_nan offsetY0 zoom0 MAX_ITER
  = Some MAX_ITER.
Proof.
  apply (nan_viewport_runs_to_bound true 10 20 WIDTH HEIGHT S754_nan offsetY0 zoom0 MAX_ITER).
  - unfold MAX_ITER. lia.
  - left. reflexivity.
Defined.

(** ** Conversions that do not round *)

Section ExactConversions.

(** A value that is canonical in a format is left as it is by a rounding
    to that format. *)
Lemma binary_round_aux_canonical (prec emax : Z) (s : bool) (m : positive) (e : Z) :
  bounded prec emax m e = true ->
  binary_round_aux prec emax s (Z.pos m) e loc_Exact = S754_finite s m e.
Proof.
  unfold bounded, canonical_mantissa. intros H.
  apply andb_true_iff in H as [Hc He]. apply Z.eqb_eq in Hc.
  unfold binary_round_aux, shr_fexp. cbn [Zdigits2].
  rewrite Hc, Z.sub_diag. cbn [shr shr_record_of_loc shr_m loc_of_shr_record round_nearest_even].
  cbn [Zdigits2]. rewrite Hc, Z.sub_diag. cbn [shr shr_record_of_loc shr_m].
  rewrite He. reflexivity.
Qed.

Lemma binary_round_canonical (prec emax : Z) (s : bool) (m : positive) (e : Z) :
  bounded prec emax m e = true ->
  binary_round prec emax s m e = S754_finite s m e.
Proof.
  intros H. unfold binary_round, shl_align.
  assert (Hc : fexp prec emax (Z.pos (digits2_pos m) + e) = e).
  { unfold bounded, canonical_mantissa in H.
    apply andb_true_iff in H as [Hc _]. now apply Z.eqb_eq in Hc. }
  rewrite Hc, Z.sub_diag. now apply binary_round_aux_canonical.
Qed.

(** Shifting out bits that are all zero leaves no round or sticky bit. *)
Lemma iter_pos_peano {A} (f : A -> A) (n : positive) (x : A) :
  SpecFloat.iter_pos f n x = Pos.iter f x n.
Proof.
  revert x. induction n as [n IH | n IH |]; intros x; cbn [SpecFloat.iter_pos Pos.iter].
  - rewrite !IH, !Pos.iter_swap. reflexivity.
  - rewrite !IH. reflexivity.
  - reflexivity.
Qed.

Lemma shr_exact (m n : positive) :
  SpecFloat.iter_pos shr_1 n (Build_shr_record (Z.pos (Pos.iter xO m n)) false false)
  = Build_shr_record (Z.pos m) false false.
Proof.
  rewrite iter_pos_peano.
  induction n as [|n IH] using Pos.peano_ind; [reflexivity|].
  replace (Pos.iter xO m (Pos.succ n)) with (xO (Pos.iter xO m n))
    by (symmetry; apply Pos.iter_succ).
  rewrite Pos.iter_succ_r. exact IH.
Qed.

(** A binary32 value converted to binary64 is finite, and converted back
    it is unchanged. *)
Lemma binary32_through_binary64 (s : bool) (m : positive) (e : Z) :
  bounded 24 128 m e = true ->
  exists m' e',
    IEEE.convert IEEE.binary64 (S754_finite s m e) = S754_finite s m' e' /\
    IEEE.convert IEEE.binary32 (S754_finite s m' e') = S754_finite s m e.
Proof.
  intros H. pose proof H as Hb.
  unfold bounded, canonical_mantissa in H.
  apply andb_true_iff in H as [Hc He]. apply Z.eqb_eq in Hc. apply Z.leb_le in He.
  pose proof (Zdigits2_pos (Z.pos m) ltac:(lia)) as Hd. cbn [Zdigits2] in Hd.
  set (d := Z.pos (digits2_pos m)) in *.
  assert (Hd24 : d <= 24 /\ -149 <= e) by (unfold fexp, emin in Hc; lia).
  assert (Hk : exists k, Z.pos k = 53 - d) by (exists (Z.to_pos (53 - d)); lia).
  destruct Hk as [k Hk].
  assert (Hd1 : Z.pos (digits2_pos (Pos.iter xO m k)) = 53)
    by (rewrite digits2_iter_xO; fold d; lia).
  (* widening: the mantissa is shifted left to 53 bits *)
  assert (Hw : IEEE.convert IEEE.binary64 (S754_finite s m e)
               = S754_finite s (Pos.iter xO m k) (e - Z.pos k)).
  { cbn [IEEE.convert IEEE.binary64 IEEE.prec IEEE.emax].
    unfold binary_round, shl_align. fold d.
    replace (fexp 53 1024 (d + e) - e) with (Z.neg k) by (unfold fexp, emin; lia).
    replace (fexp 53 1024 (d + e)) with (e - Z.pos k) by (unfold fexp, emin; lia).
    apply binary_round_aux_canonical.
    unfold bounded, canonical_mantissa. rewrite Hd1.
    apply andb_true_iff. split; [apply Z.eqb_eq | apply Z.leb_le];
      unfold fexp, emin; lia. }
  exists (Pos.iter xO m k), (e - Z.pos k). split; [exact Hw|].
  (* narrowing: the same bits are shifted out again *)
  cbn [IEEE.convert IEEE.binary32 IEEE.prec IEEE.emax].
  unfold binary_round, shl_align. rewrite Hd1.
  replace (fexp 24 128 (53 + (e - Z.pos k)) - (e - Z.pos k)) with (Z.pos k)
    by (unfold fexp, emin in *; lia).
  unfold binary_round_aux, shr_fexp. cbn [Zdigits2]. rewrite Hd1.
  replace (fexp 24 128 (53 + (e - Z.pos k)) - (e - Z.pos k)) with (Z.pos k)
    by (unfold fexp, emin in *; lia).
  cbn [shr shr_record_of_loc]. rewrite shr_exact.
  cbn [shr_m loc_of_shr_record round_nearest_even Zdigits2]. fold d.
  replace (e - Z.pos k + Z.pos k) with e by lia.
  rewrite Hc, Z.sub_diag. cbn [shr shr_record_of_loc shr_m].
  replace (e <=? 128 - 24) with true by lia. reflexivity.
Qed.

(** In both literal types of the kernel. *)
Lemma binary32_through_lit (dev s : bool) (m : positive) (e : Z) :
  bounded 24 128 m e = true ->
  exists m' e',
    IEEE.convert (Kernel.lit dev) (S754_finite s m e) = S754_finite s m' e' /\
    IEEE.convert IEEE.binary32 (S754_finite s m' e') = S754_finite s m e.
Proof.
  intros H. destruct dev; [now apply binary32_through_binary64|].
  exists m, e. cbn [Kernel.lit IEEE.convert IEEE.binary32 IEEE.prec IEEE.emax].
  rewrite binary_round_canonical by exact H. split; reflexivity.
Qed.

(** After the first pass the registers hold [c], up to the sign of a zero,
    which the test does not see. *)
Lemma first_pass_loads_c (dev : bool) (cx cy : spec_float) :
  valid_binary 24 128 cx = true -> valid_binary 24 128 cy = true ->
  escapes dev (orbit dev cx cy 1) = escapes dev (Kernel.Regs cx cy 0).
Proof.
  intros Hx Hy. rewrite orbit_S. unfold advance, escapes.
  cbn [Kernel.zx Kernel.zy orbit Nat.iter Kernel.init].
  assert (Hzx : IEEE.mul IEEE.binary32
                  (IEEE.add IEEE.binary32 (S754_zero false) cx)
                  (IEEE.add IEEE.binary32 (S754_zero false) cx)
                = IEEE.mul IEEE.binary32 cx cx)
    by (destruct cx as [[|]|[|]| |]; reflexivity).
  assert (Hzy : forall z,
             z = IEEE.convert IEEE.binary32
                   (IEEE.add (Kernel.lit dev) (S754_zero false)
                      (IEEE.convert (Kernel.lit dev) cy)) ->
             IEEE.mul IEEE.binary32 z z = IEEE.mul IEEE.binary32 cy cy).
  { intros z ->. destruct cy as [[|]|[|]| |s m e]; try (destruct dev; reflexivity).
    destruct (binary32_through_lit dev s m e Hy) as (m' & e' & -> & Hback).
    change (IEEE.add (Kernel.lit dev) (S754_zero false) (S754_finite s m' e'))
      with (S754_finite s m' e').
    rewrite Hback. reflexivity. }
  replace (orbit dev cx cy 0) with (Kernel.Regs (S754_zero false) (S754_zero false) 0)
    by reflexivity.
  cbn [Kernel.zx Kernel.zy].
  change (IEEE.sub IEEE.binary32
            (IEEE.mul IEEE.binary32 (S754_zero false) (S754_zero false))
            (IEEE.mul IEEE.binary32 (S754_zero false) (S754_zero false)))
    with (S754_zero false).
  replace (IEEE.mul (Kernel.lit dev)
             (IEEE.mul (Kernel.lit dev) (Kernel.lit_2_0 dev)
                (IEEE.convert (Kernel.lit dev) (S754_zero false)))
             (IEEE.convert (Kernel.lit dev) (S754_zero false)))
    with (S754_zero false) by (destruct dev; reflexivity).
  rewrite Hzx, (Hzy _ eq_refl). reflexivity.
Qed.

End ExactConversions.

(** X5. A coordinate outside the disc of radius 2 gets the counter 1: when
    the coordinate [c] of the work-item, a binary32 value, passes the test
    [cx*cx + cy*cy > 4.0], the second evaluation of the loop head leaves the
    loop, for every bound of at least 1 (by [break] when the bound is 2 or
    more). *)
Theorem outside_disc_counts_one :
  forall (dev : bool) (x y w h : Z) (ox oy zm : spec_float) (m : Z),
    let cx := Kernel.cx_of dev x w ox zm in
    let cy := Kernel.cy_of dev y h oy zm in
    valid_binary 24 128 cx = true ->
    valid_binary 24 128 cy = true ->
    escapes dev (Kernel.Regs cx cy 0) = true ->
    1 <= m ->
    Kernel.mandelbrot_iter dev x y w h ox oy zm m = Some 1 /\
    exists r,
      Kernel.escape_loop dev cx cy m
      = Some (if 2 <=? m then Kernel.ByEscape else Kernel.ByBound, r, 1%nat).
Proof.
  intros dev x y w h ox oy zm m cx cy Hx Hy Hout Hm.
  destruct (escape_loop_orbit dev cx cy m) as (why & n & Hrun & Hbelow & Hwhy).
  assert (Hn : n = 1%nat).
  { destruct n as [|[|n]]; [exfalso | reflexivity | exfalso].
    - destruct why; [|lia]. rewrite init_does_not_escape in Hwhy. destruct Hwhy. discriminate.
    - rewrite <- first_pass_loads_c in Hout by assumption.
      rewrite Hbelow in Hout by lia. discriminate. }
  subst n. split.
  - unfold Kernel.mandelbrot_iter. fold cx cy. rewrite Hrun, orbit_iter. reflexivity.
  - eexists. rewrite Hrun. destruct why.
    + replace (2 <=? m) with true by lia. reflexivity.
    + replace (2 <=? m) with false by lia. reflexivity.
Qed.

Lemma outside_disc_counts_one_witness :
  Kernel.mandelbrot_iter true 0 0 WIDTH HEIGHT offsetX0 offsetY0 zoom0 MAX_ITER = Some 1 /\
  exists r,
    Kernel.escape_loop true (Kernel.cx_of true 0 WIDTH offsetX0 zoom0)
      (Kernel.cy_of true 0 HEIGHT offsetY0 zoom0) MAX_ITER
    = Some (if 2 <=? MAX_ITER then Kernel.ByEscape else Kernel.ByBound, r, 1%nat).
Proof.
  apply (outside_disc_counts_one true 0 0 WIDTH HEIGHT offsetX0 offsetY0 zoom0 MAX_ITER).
  - vm_compute. reflexivity.
  - vm_compute. reflexivity.
  - vm_compute. reflexivity.
  - unfold MAX_ITER. lia.
Defined.

(** ** What a generation leaves in the frame buffer *)

(** X6. After a generation every pixel of the raster holds the palette
    entry selected by the counter of its work-item modulo 256, whatever the
    order of the work-items; it is the palette entry of the counter itself
    exactly when the counter is below 256. *)
Theorem pixel_holds_entry_mod_256 :
  forall (d : dispatch) (st : state) (img : list Z),
    well_formed d ->
    Z.of_nat (length (colorTable st)) = MAX_ITER + 1 ->
    Z.of_nat (length img) = WIDTH * HEIGHT * 3 ->
    exists img',
      generateMandelbrot d st img = Some img' /\
      length img' = length img /\
      forall x y, 0 <= x < WIDTH -> 0 <= y < HEIGHT ->
        exists n,
          Kernel.mandelbrot_iter (fp64 d) x y WIDTH HEIGHT
            (offsetX st) (offsetY st) (zoom st) MAX_ITER = Some n /\
          0 <= n <= MAX_ITER /\
          is_Some (pixel_at img' x y) /\
          pixel_at img' x y = load (colorTable st) (n mod 256) /\
          (n < 256 -> pixel_at img' x y = load (colorTable st) n).
Proof.
  intros d st img Hd Htbl Himg.
  destruct (generateMandelbrot_spec d st img Hd) as (img' & Hgen & Hlen & Hpix).
  { unfold MAX_ITER in Htbl. lia. }
  { exact Himg. }
  exists img'. split; [exact Hgen|]. split; [lia|].
  intros x y Hx Hy. destruct (Hpix x y Hx Hy) as (n & c & Hn & Hr & Hc & Hp).
  exists n. split; [exact Hn|]. split; [exact Hr|]. split; [rewrite Hp; eauto|].
  split; [congruence|]. intros Hlt. rewrite Z.mod_small in Hc by lia. congruence.
Qed.

Lemma pixel_holds_entry_mod_256_witness :
  exists img',
    generateMandelbrot (dispatch0 true) (initial (palette X87))
      (image (initial (palette X87))) = Some img' /\
    length img' = length (image (initial (palette X87))) /\
    forall x y, 0 <= x < WIDTH -> 0 <= y < HEIGHT ->
      exists n,
        Kernel.mandelbrot_iter true x y WIDTH HEIGHT offsetX0 offsetY0 zoom0 MAX_ITER
          = Some n /\
        0 <= n <= MAX_ITER /\
        is_Some (pixel_at img' x y) /\
        pixel_at img' x y = load (palette X87) (n mod 256) /\
        (n < 256 -> pixel_at img' x y = load (palette X87) n).
Proof.
  apply (pixel_holds_entry_mod_256 (dispatch0 true) (initial (palette X87))
           (image (initial (palette X87)))).
  - apply dispatch0_well_formed.
  - apply palette_length.
  - apply initial_image_length.
Defined.

Lemma triple_at_loads (img : list Z) (k : Z) (r g b : Z) :
  triple_at img k = Some (r, g, b) ->
  load img (k * 3) = Some r /\ load img (k * 3 + 1) = Some g /\ load img (k * 3 + 2) = Some b.
Proof.
  unfold triple_at.
  destruct (load img (k * 3)) as [r'|]; [|discriminate].
  destruct (load img (k * 3 + 1)) as [g'|]; [|discriminate].
  destruct (load img (k * 3 + 2)) as [b'|]; [|discriminate].
  cbn. intros [= -> -> ->]. auto.
Qed.

Lemma triple_at_ext (img img' : list Z) :
  length img = length img' ->
  Z.of_nat (length img) = WIDTH * HEIGHT * 3 ->
  (forall k, 0 <= k < WIDTH * HEIGHT ->
     is_Some (triple_at img k) /\ triple_at img k = triple_at img' k) ->
  img = img'.
Proof.
  intros Hlen Hsize Hpix. apply list_eq. intros i.
  destruct (Nat.lt_ge_cases i (length img)) as [Hlt | Hge].
  - set (k := Z.of_nat i / 3). set (j := Z.of_nat i mod 3).
    assert (Hi : Z.of_nat i = k * 3 + j) by (unfold k, j; pose proof (Z.div_mod (Z.of_nat i) 3); lia).
    assert (Hj : 0 <= j < 3) by (apply Z.mod_pos_bound; lia).
    assert (Hk : 0 <= k < WIDTH * HEIGHT) by lia.
    destruct (Hpix k Hk) as [[[[r g] b] Hc] Heq].
    rewrite Hc in Heq. symmetry in Heq.
    apply triple_at_loads in Hc as (H0 & H1 & H2).
    apply triple_at_loads in Heq as (H0' & H1' & H2').
    assert (Hload : load img (Z.of_nat i) = load img' (Z.of_nat i)).
    { rewrite Hi. destruct (Z.eq_dec j 0) as [-> | ?]; [|destruct (Z.eq_dec j 1) as [-> | ?]].
      - rewrite Z.add_0_r. congruence.
      - congruence.
      - replace j with 2 by lia. congruence. }
    unfold load in Hload. rewrite <- Hlen in Hload.
    replace (0 <=? Z.of_nat i) with true in Hload by lia.
    replace (Z.of_nat i <? Z.of_nat (length img)) with true in Hload by lia.
    rewrite Nat2Z.id in Hload. exact Hload.
  - rewrite !lookup_ge_None_2 by lia. reflexivity.
Qed.

(** X7. The frame a generation produces depends on the viewport, the
    palette and the literal type of the device only: any two generations
    from the same state give the same frame buffer, whatever the orders in
    which their work-items ran, whatever the new device buffers held and
    whatever the frame buffers held before. Every byte is overwritten. *)
Theorem generation_overwrites_everything :
  forall (d d' : dispatch) (st : state) (img img' : list Z),
    well_formed d -> well_formed d' ->
    fp64 d = fp64 d' ->
    Z.of_nat (length (colorTable st)) = MAX_ITER + 1 ->
    Z.of_nat (length img) = WIDTH * HEIGHT * 3 ->
    Z.of_nat (length img') = WIDTH * HEIGHT * 3 ->
    generateMandelbrot d st img = generateMandelbrot d' st img' /\
    is_Some (generateMandelbrot d st img).
Proof.
  intros d d' st img img' Hd Hd' Hdev Htbl Himg Himg'.
  destruct (generateMandelbrot_spec d st img Hd) as (r & Hgen & Hlen & Hpix);
    [unfold MAX_ITER in Htbl; lia | exact Himg |].
  destruct (generateMandelbrot_spec d' st img' Hd') as (r' & Hgen' & Hlen' & Hpix');
    [unfold MAX_ITER in Htbl; lia | exact Himg' |].
  rewrite Hgen, Hgen'. split; [|eauto]. f_equal.
  apply triple_at_ext; [lia | exact Hlen |].
  intros k Hk.
  assert (Hx : 0 <= k mod WIDTH < WIDTH) by (apply Z.mod_pos_bound; unfold WIDTH; lia).
  assert (Hy : 0 <= k / WIDTH < HEIGHT).
  { split; [apply Z.div_pos; unfold WIDTH; lia|].
    apply Z.div_lt_upper_bound; [unfold WIDTH; lia | lia]. }
  destruct (Hpix _ _ Hx Hy) as (n & c & Hn & _ & Hc & Hp).
  destruct (Hpix' _ _ Hx Hy) as (n' & c' & Hn' & _ & Hc' & Hp').
  rewrite <- Hdev, Hn in Hn'. injection Hn' as <-.
  rewrite Hc in Hc'. injection Hc' as <-.
  unfold pixel_at in Hp, Hp'.
  replace (k / WIDTH * WIDTH + k mod WIDTH) with k in Hp, Hp'
    by (rewrite (Z.div_mod k WIDTH) at 1; [lia | unfold WIDTH; lia]).
  rewrite Hp, Hp'. split; [eauto | reflexivity].
Qed.

Lemma dispatch1_well_formed (dev : bool) : well_formed (dispatch1 dev).
Proof.
  split.
  - intros x y. cbn [dispatch1 schedule]. rewrite elem_of_reverse. apply row_major_covers.
  - cbn [dispatch1 fresh]. rewrite length_replicate. unfold WIDTH, HEIGHT. lia.
Qed.

Lemma generation_overwrites_everything_witness :
  generateMandelbrot (dispatch0 true) (initial (palette X87)) (image (initial (palette X87)))
  = generateMandelbrot (dispatch1 true) (initial (palette X87))
      (replicate (Z.to_nat (WIDTH * HEIGHT * 3)) 255) /\
  is_Some (generateMandelbrot (dispatch0 true) (initial (palette X87))
             (image (initial (palette X87)))).
Proof.
  apply (generation_overwrites_everything (dispatch0 true) (dispatch1 true)
           (initial (palette X87))).
  - apply dispatch0_well_formed.
  - apply dispatch1_well_formed.
  - unfold dispatch0, dispatch1. cbn [fp64]. reflexivity.
  - apply palette_length.
  - apply initial_image_length.
  - rewrite length_replicate. unfold WIDTH, HEIGHT. lia.
Defined.

(** ** The event loop *)

Section EventLoop.
Variable abi : long_double.

(** Keys touch the viewport and [needsRedraw] only. *)
Lemma key_down_frame (k : keysym) (st : state) :
  colorTable (key_down abi k st) = colorTable st /\
  image (key_down abi k st) = image st /\
  isGenerating (key_down abi k st) = isGenerating st /\
  detached (key_down abi k st) = detached st.
Proof. destruct k; repeat split. Qed.

Lemma keys_frame (ks : list keysym) :
  forall st,
    colorTable (keys abi ks st) = colorTable st /\
    image (keys abi ks st) = image st /\
    isGenerating (keys abi ks st) = isGenerating st /\
    detached (keys abi ks st) = detached st.
Proof.
  induction ks as [|k ks IH]; intros st; [repeat split|].
  cbn [keys fold_left]. destruct (IH (key_down abi k st)) as (H1 & H2 & H3 & H4).
  destruct (key_down_frame k st) as (F1 & F2 & F3 & F4).
  unfold keys in *. repeat split; congruence.
Qed.

Lemma events_keys (evs : list event) :
  forall q st,
    events abi evs (q, st) = (q || existsb is_quit evs, keys abi (key_presses evs) st).
Proof.
  induction evs as [|e evs IH]; intros q st.
  - cbn. now rewrite orb_false_r.
  - change (events abi (e :: evs) (q, st)) with (events abi evs (handle_event abi e (q, st))).
    destruct e as [|k|]; cbn [handle_event fst snd]; rewrite IH; destruct q; reflexivity.
Qed.

Lemma main_pass_keys (evs : list event) (q : bool) (st : state) :
  main_pass abi evs (q, st) =
  let st1 := keys abi (key_presses evs) st in
  (q || existsb is_quit evs,
   if needsRedraw st1 then set_needsRedraw false (generateMandelbrotAsync st1) else st1).
Proof.
  unfold main_pass. change (fold_left _ evs (q, st)) with (events abi evs (q, st)).
  rewrite events_keys. cbv zeta. destruct (needsRedraw _); reflexivity.
Qed.

End EventLoop.

(** X8. Draining the event queue: [quit] ends true exactly when it was
    true or the queue held an [SDL_QUIT]; the state ends as if the keys of
    the key-down events had been applied in order and nothing else had been
    in the queue. In particular the keys that follow an [SDL_QUIT] in the
    queue are still applied, and events of other types change nothing. *)
Theorem drained_events :
  forall (abi : long_double) (evs : list event) (q : bool) (st : state),
    events abi evs (q, st) = (q || existsb is_quit evs, keys abi (key_presses evs) st) /\
    (forall evs', events abi (evs ++ SDL_QUIT :: evs') (q, st)
                  = (true, keys abi (key_presses evs ++ key_presses evs') st)).
Proof.
  intros abi evs q st. split; [apply events_keys|].
  intros evs'. rewrite events_keys. f_equal.
  - rewrite existsb_app. cbn. rewrite orb_true_r. apply orb_true_r.
  - unfold key_presses. rewrite omap_app. reflexivity.
Qed.

(** X9. A pass of the main loop made while a generation is in flight
    drops the redraw request: [needsRedraw] is false afterwards although no
    thread was started, the flag stays set and the frame buffer is
    untouched, while the viewport has moved by the keys of the pass. *)
Theorem pass_while_generating_drops_redraw :
  forall (abi : long_double) (evs : list event) (q : bool) (st : state),
    isGenerating st = true ->
    let '(q', st') := main_pass abi evs (q, st) in
    q' = q || existsb is_quit evs /\
    needsRedraw st' = false /\
    isGenerating st' = true /\
    detached st' = detached st /\
    image st' = image st /\
    viewport st' = viewport (keys abi (key_presses evs) st).
Proof.
  intros abi evs q st Hgen. rewrite main_pass_keys. cbv zeta.
  destruct (keys_frame abi (key_presses evs) st) as (_ & Himg & Hflag & Hdet).
  split; [reflexivity|].
  destruct (needsRedraw (keys abi (key_presses evs) st)) eqn:Hn.
  - unfold generateMandelbrotAsync. rewrite Hflag, Hgen.
    repeat split; cbn; congruence.
  - repeat split; congruence.
Qed.

Lemma pass_while_generating_drops_redraw_witness :
  let '(q', st') :=
    main_pass X87 [SDL_KEYDOWN SDLK_e] (false, generateMandelbrotAsync (initial [])) in
  q' = false || existsb is_quit [SDL_KEYDOWN SDLK_e] /\
  needsRedraw st' = false /\
  isGenerating st' = true /\
  detached st' = detached (generateMandelbrotAsync (initial [])) /\
  image st' = image (generateMandelbrotAsync (initial [])) /\
  viewport st' = viewport (keys X87 (key_presses [SDL_KEYDOWN SDLK_e])
                             (generateMandelbrotAsync (initial []))).
Proof.
  apply (pass_while_generating_drops_redraw X87 [SDL_KEYDOWN SDLK_e] false
           (generateMandelbrotAsync (initial []))); reflexivity.
Defined.

(** X10. Requests do not pile up: a second call of
    [generateMandelbrotAsync] right after a first changes nothing, whatever
    the state before the first, and after a call the flag is set and at most
    one thread has been added. *)
Theorem request_is_idempotent :
  forall st : state,
    generateMandelbrotAsync (generateMandelbrotAsync st) = generateMandelbrotAsync st /\
    isGenerating (generateMandelbrotAsync st) = true /\
    (detached st <= detached (generateMandelbrotAsync st) <= S (detached st))%nat /\
    image (generateMandelbrotAsync st) = image st /\
    viewport (generateMandelbrotAsync st) = viewport st.
Proof.
  intros st. unfold generateMandelbrotAsync.
  destruct (isGenerating st) eqn:Hflag.
  - rewrite Hflag. repeat split; try assumption; lia.
  - cbn. repeat split; lia.
Qed.

(** ** The main thread and the generation thread together *)

Section Interleaving.
Variable abi : long_double.

Lemma thread_body_two_steps (d : dispatch) (st : state) :
  (0 < detached st)%nat ->
  thread_body d st = out ← thread_dispatch d st; thread_finish out st.
Proof.
  intros H. unfold thread_body, thread_finish, thread_dispatch, generateMandelbrot.
  destruct (detached st) as [|n]; [lia|].
  destruct (enqueueNDRangeKernel _ _ _ _ _ _ _ _ _) as [out|]; reflexivity.
Qed.

Lemma thread_dispatch_output (d : dispatch) (st : state) :
  well_formed d ->
  exists out,
    thread_dispatch d st = Some out /\
    Z.of_nat (length out) = WIDTH * HEIGHT /\
    forall k px, load out k = Some px -> 0 <= Kernel.s0 px < 256.
Proof.
  intros [Hcov Hfresh]. unfold thread_dispatch.
  destruct (enqueue_spec (fp64 d) WIDTH HEIGHT (offsetX st) (offsetY st) (zoom st) MAX_ITER
              (schedule d) (fresh d)) as (out & Hrun & Hlen & Hset & _).
  { intros x y H. now apply Hcov. }
  { exact Hfresh. }
  exists out. split; [exact Hrun|]. split; [lia|].
  intros k px Hpx. apply load_lookup in Hpx as Hk. destruct Hk as [Hk0 Hk].
  apply lookup_lt_Some in Hk.
  assert (Hx : 0 <= k mod WIDTH < WIDTH) by (apply Z.mod_pos_bound; unfold WIDTH; lia).
  assert (Hy : 0 <= k / WIDTH < HEIGHT).
  { split; [apply Z.div_pos; unfold WIDTH; lia|].
    apply Z.div_lt_upper_bound; [unfold WIDTH; lia | lia]. }
  destruct (Hset (k mod WIDTH) (k / WIDTH)) as (n & _ & Hn & Hcell); [now apply Hcov|].
  replace (k / WIDTH * WIDTH + k mod WIDTH) with k in Hcell
    by (rewrite (Z.div_mod k WIDTH) at 1; [lia | unfold WIDTH; lia]).
  rewrite Hpx in Hcell. injection Hcell as ->. cbn [Kernel.pack Kernel.s0].
  apply to_uchar_rem_range. lia.
Qed.

Lemma thread_finish_ok (out : list Kernel.uchar3) (st : state) :
  Z.of_nat (length out) = WIDTH * HEIGHT ->
  (forall k px, load out k = Some px -> 0 <= Kernel.s0 px < 256) ->
  256 <= Z.of_nat (length (colorTable st)) ->
  Z.of_nat (length (image st)) = WIDTH * HEIGHT * 3 ->
  exists img,
    for_loop 0 HEIGHT (fun y => for_loop 0 WIDTH (color_pixel (colorTable st) out y)) (image st)
      = Some img /\
    Z.of_nat (length img) = WIDTH * HEIGHT * 3 /\
    thread_finish out st
      = Some (set_detached (pred (detached st)) (set_isGenerating false (set_image img st))).
Proof.
  intros Hlen Hbytes Htbl Himg.
  destruct (color_loops (colorTable st) out Hlen) with (img := image st)
    as (img & Hloops & Hsize & _).
  { intros k px Hpx. specialize (Hbytes k px Hpx). lia. }
  { exact Himg. }
  exists img. split; [exact Hloops|]. split; [exact Hsize|].
  unfold thread_finish. rewrite Hloops. reflexivity.
Qed.


Variable tbl : list rgb.
Hypothesis tbl_length : Z.of_nat (length tbl) = MAX_ITER + 1.

Lemma boot_consistent : consistent tbl (boot tbl).
Proof.
  unfold consistent, boot. cbn [host mapped].
  split; [reflexivity|]. split; [apply initial_image_length|]. split; [reflexivity|].
  split; [right; exists 8388608%positive, (-24); split; [reflexivity | lia]|].
  split; [cbn; lia|]. split; [split; reflexivity|]. intros out [=].
Qed.



End Interleaving.




(** X12. Keys pressed during a generation are not drawn. When the thread
    has dispatched and, before it completes, a pass of the main loop applies
    key events, the redraw request of that pass is dropped; the frame the
    thread then delivers is the one of the viewport before the keys (the one
    [thread_body] gives from the state at the dispatch), the viewport is the
    one after the keys, and nothing is left pending that would regenerate
    the frame. *)
Theorem keys_during_generation_are_not_drawn :
  forall (abi : long_double) (tbl : list rgb) (w : world) (d : dispatch) (evs : list event),
    Z.of_nat (length tbl) = MAX_ITER + 1 ->
    consistent tbl w ->
    well_formed d ->
    detached (host w) = 1%nat ->
    mapped w = None ->
    quit w = false ->
    exists w' st',
      run abi [ThreadDispatch d; LoopPass evs; ThreadFinish] w = Some w' /\
      thread_body d (host w) = Some st' /\
      image (host w') = image st' /\
      viewport (host w') = viewport (keys abi (key_presses evs) (host w)) /\
      detached (host w') = O /\
      isGenerating (host w') = false /\
      needsRedraw (host w') = false /\
      mapped w' = None.
Proof.
  intros abi tbl w d evs Hlen (Htbl & Himg & Hredraw & Hzoom & Hdet & Hflag & Hmapped)
         Hd Hd1 Hm Hq.
  destruct (thread_dispatch_output d (host w) Hd) as (out & Hout & Holen & Hbytes).
  destruct (thread_finish_ok out (host w) Holen Hbytes) as (img & Hloops & Hsize & Hfin).
  { rewrite Htbl. unfold MAX_ITER in Hlen. lia. }
  { exact Himg. }
  destruct (keys_frame abi (key_presses evs) (host w)) as (F1 & F2 & F3 & F4).
  assert (Hgen : isGenerating (host w) = true) by (apply Hflag; exact Hd1).
  set (st1 := keys abi (key_presses evs) (host w)) in *.
  set (st3 := set_detached O (set_isGenerating false (set_image img (set_needsRedraw false st1)))).
  exists (World st3 (false || existsb is_quit evs) None),
         (set_detached O (set_isGenerating false (set_image img (host w)))).
  split; [|split].
  - cbn [run step]. rewrite Hd1, Hm, Hout. cbn.
    rewrite Hq, main_pass_keys. cbv zeta. fold st1. cbn.
    assert (Hst2 : thread_finish out
                     (if needsRedraw st1
                      then set_needsRedraw false (generateMandelbrotAsync st1) else st1)
                   = Some st3).
    { unfold thread_finish, generateMandelbrotAsync. rewrite F3, Hgen.
      destruct (needsRedraw st1) eqn:Hn; cbn; rewrite F1, F2, Hloops; cbn;
        unfold st3; rewrite F4, Hd1; cbn; [reflexivity|].
      destruct st1; cbn in *; subst; reflexivity. }
    rewrite Hst2. reflexivity.
  - rewrite thread_body_two_steps by lia. rewrite Hout. cbn.
    rewrite Hfin, Hd1. reflexivity.
  - repeat split.
Qed.

Lemma keys_during_generation_are_not_drawn_witness :
  exists w' st',
    run X87 [ThreadDispatch (dispatch0 true); LoopPass [SDL_KEYDOWN SDLK_e]; ThreadFinish]
      (boot (palette X87)) = Some w' /\
    thread_body (dispatch0 true) (host (boot (palette X87))) = Some st' /\
    image (host w') = image st' /\
    viewport (host w')
    = viewport (keys X87 (key_presses [SDL_KEYDOWN SDLK_e]) (host (boot (palette X87)))) /\
    detached (host w') = O /\
    isGenerating (host w') = false /\
    needsRedraw (host w') = false /\
    mapped w' = None.
Proof.
  apply (keys_during_generation_are_not_drawn X87 (palette X87) (boot (palette X87))
           (dispatch0 true) [SDL_KEYDOWN SDLK_e]).
  - apply palette_length.
  - apply boot_consistent.
  - apply dispatch0_well_formed.
  - reflexivity.
  - reflexivity.
  - reflexivity.
Defined.

(** ** The emptiness check *)

Lemma scan_zero_spec (img : list Z) :
  forall (n : nat) (i : Z),
    0 <= i -> i + Z.of_nat n <= Z.of_nat (length img) ->
    exists b,
      scan_zero n i img = Some b /\
      (b = true <-> forall j, i <= j < i + Z.of_nat n -> load img j = Some 0).
Proof.
  induction n as [|n IH]; intros i Hi Hlen.
  - exists true. split; [reflexivity|]. split; [intros _ j Hj; lia | reflexivity].
  - destruct (load_in_range img i) as [v Hv]; [lia|].
    cbn [scan_zero]. rewrite Hv. cbn.
    destruct (v =? 0) eqn:Hz.
    + apply Z.eqb_eq in Hz. subst v.
      destruct (IH (i + 1)) as (b & Hb & Hspec); [lia | lia |].
      exists b. split; [exact Hb|]. rewrite Hspec. split.
      * intros H j Hj. destruct (Z.eq_dec j i) as [-> | Hne]; [exact Hv | apply H; lia].
      * intros H j Hj. apply H. lia.
    + apply Z.eqb_neq in Hz. exists false. split; [reflexivity|].
      split; [discriminate|]. intros H. specialize (H i ltac:(lia)). congruence.
Qed.

(** X13. The emptiness check has no access out of range on a frame buffer
    of at least [WIDTH * HEIGHT * 3] bytes, and its result is true exactly
    when each of the first [WIDTH * HEIGHT * 3] bytes is zero. *)
Theorem allZero_correct :
  forall img : list Z,
    WIDTH * HEIGHT * 3 <= Z.of_nat (length img) ->
    exists b,
      allZero img = Some b /\
      (b = true <-> forall i, 0 <= i < WIDTH * HEIGHT * 3 -> load img i = Some 0).
Proof.
  intros img Hlen. unfold allZero.
  destruct (scan_zero_spec img (Z.to_nat (WIDTH * HEIGHT * 3)) 0) as (b & Hb & Hspec);
    [lia | unfold WIDTH, HEIGHT in *; lia |].
  exists b. split; [exact Hb|]. rewrite Hspec.
  replace (0 + Z.of_nat (Z.to_nat (WIDTH * HEIGHT * 3))) with (WIDTH * HEIGHT * 3)
    by (unfold WIDTH, HEIGHT; lia).
  reflexivity.
Qed.

Lemma allZero_correct_witness :
  exists b,
    allZero (image (initial [])) = Some b /\
    (b = true <->
     forall i, 0 <= i < WIDTH * HEIGHT * 3 -> load (image (initial [])) i = Some 0).
Proof.
  apply (allZero_correct (image (initial []))).
  rewrite initial_image_length. lia.
Defined.

(** X14. What the check of [main] reports depends on the generation
    thread: made before the thread of the first request has run, as the
    request leaves the frame buffer untouched, it finds the frame empty;
    made after that thread has completed, it finds it not empty, for every
    order of the work-items. *)
Theorem startup_check_races :
  forall (abi : long_double) (d : dispatch) (tbl : list rgb),
    well_formed d ->
    Palette.initColorTable abi Palette.colorTable0 = Some tbl ->
    allZero (image (generateMandelbrotAsync (initial tbl))) = Some true /\
    exists st,
      thread_body d (generateMandelbrotAsync (initial tbl)) = Some st /\
      allZero (image st) = Some false.
Proof.
  intros abi d tbl Hd Htbl.
  rewrite initColorTable_palette in Htbl by reflexivity. injection Htbl as <-.
  split.
  - destruct (allZero_correct (image (generateMandelbrotAsync (initial (palette abi)))))
      as (b & Hb & Hspec).
    { change (image (generateMandelbrotAsync (initial (palette abi))))
        with (image (initial (palette abi))).
      rewrite initial_image_length. lia. }
    rewrite Hb. f_equal. apply Hspec. intros i Hi.
    apply load_lookup. split; [lia|].
    change (image (generateMandelbrotAsync (initial (palette abi))))
      with (replicate (Z.to_nat (WIDTH * HEIGHT * 3)) 0).
    apply lookup_replicate_2. unfold WIDTH, HEIGHT in *. lia.
  - set (st0 := generateMandelbrotAsync (initial (palette abi))).
    destruct (generateMandelbrot_spec d st0 (image st0) Hd) as (img & Hgen & Hlen & Hpix).
    { change (colorTable st0) with (palette abi).
      pose proof (palette_length abi). unfold MAX_ITER in *. lia. }
    { apply initial_image_length. }
    eexists. split.
    + unfold thread_body. change (detached st0) with 1%nat. rewrite Hgen. reflexivity.
    + cbn [image set_detached set_isGenerating set_image].
      destruct (allZero_correct img ltac:(lia)) as (b & Hb & Hspec).
      rewrite Hb. f_equal. destruct b; [exfalso | reflexivity].
      destruct (Hpix 481 340) as (n & c & Hn & _ & Hc & Hp);
        [unfold WIDTH; lia | unfold HEIGHT; lia |].
      change (offsetX st0) with offsetX0 in Hn. change (offsetY st0) with offsetY0 in Hn.
      change (zoom st0) with zoom0 in Hn. change (colorTable st0) with (palette abi) in Hc.
      rewrite interior_pixel in Hn. injection Hn as <-.
      destruct (palette_entries abi) as (_ & H32 & _).
      change (MAX_ITER mod 256) with 32 in Hc. rewrite H32 in Hc. injection Hc as <-.
      apply triple_at_loads in Hp as (_ & Hg & _).
      rewrite (proj1 Hspec eq_refl) in Hg; [discriminate|].
      unfold WIDTH, HEIGHT. lia.
Qed.

Lemma startup_check_races_witness :
  allZero (image (generateMandelbrotAsync (initial (palette X87)))) = Some true /\
  exists st,
    thread_body (dispatch0 true) (generateMandelbrotAsync (initial (palette X87))) = Some st /\
    allZero (image st) = Some false.
Proof.
  apply (startup_check_races X87 (dispatch0 true) (palette X87)).
  - apply dispatch0_well_formed.
  - apply initColorTable_palette. reflexivity.
Defined.

(** ** The ends of the zoom range *)

Section ZoomLimits.
Variable abi : long_double.

Lemma key_down_infinite_zoom (k : keysym) (st : state) :
  zoom st = S754_infinity false ->
  zoom (key_down abi k st) = S754_infinity false /\
  (forall s m e, offsetX st = S754_finite s m e -> offsetX (key_down abi k st) = offsetX st) /\
  (forall s m e, offsetY st = S754_finite s m e -> offsetY (key_down abi k st) = offsetY st).
Proof.
  intros Hz.
  assert (Hstep : pan_step st = S754_zero false) by (unfold pan_step; rewrite Hz; reflexivity).
  destruct k; cbn [key_down zoom offsetX offsetY set_needsRedraw set_offsetX set_offsetY set_zoom];
    rewrite ?Hstep, ?Hz;
    (split; [try reflexivity; destruct abi; reflexivity|]);
    split; intros s m e H; rewrite ?H; reflexivity.
Qed.

Lemma keys_infinite_zoom (ks : list keysym) :
  forall st,
    zoom st = S754_infinity false ->
    zoom (keys abi ks st) = S754_infinity false /\
    (forall s m e, offsetX st = S754_finite s m e -> offsetX (keys abi ks st) = offsetX st) /\
    (forall s m e, offsetY st = S754_finite s m e -> offsetY (keys abi ks st) = offsetY st).
Proof.
  induction ks as [|k ks IH]; intros st Hz.
  - split; [exact Hz|]. split; reflexivity.
  - destruct (key_down_infinite_zoom k st Hz) as (Hz1 & Hx1 & Hy1).
    destruct (IH (key_down abi k st) Hz1) as (Hz2 & Hx2 & Hy2).
    change (keys abi (k :: ks) st) with (keys abi ks (key_down abi k st)).
    split; [exact Hz2|]. split; intros s m e H.
    + rewrite (Hx2 s m e), (Hx1 s m e); congruence || (rewrite (Hx1 s m e); assumption).
    + rewrite (Hy2 s m e), (Hy1 s m e); congruence || (rewrite (Hy1 s m e); assumption).
Qed.

Lemma key_down_nan_offset (k : keysym) (st : state) :
  (offsetX st = S754_nan -> offsetX (key_down abi k st) = S754_nan) /\
  (offsetY st = S754_nan -> offsetY (key_down abi k st) = S754_nan).
Proof.
  destruct k; cbn [key_down offsetX offsetY set_needsRedraw set_offsetX set_offsetY set_zoom];
    split; intros H; rewrite ?H; reflexivity.
Qed.

Lemma keys_nan_offset (ks : list keysym) :
  forall st,
    (offsetX st = S754_nan -> offsetX (keys abi ks st) = S754_nan) /\
    (offsetY st = S754_nan -> offsetY (keys abi ks st) = S754_nan).
Proof.
  induction ks as [|k ks IH]; intros st; [split; trivial|].
  change (keys abi (k :: ks) st) with (keys abi ks (key_down abi k st)).
  destruct (key_down_nan_offset k st) as [Hx Hy].
  destruct (IH (key_down abi k st)) as [Hx' Hy']. split; auto.
Qed.

End ZoomLimits.

(** X15. An infinite zoom is final. Once [zoom] is +infinity, which
    repeated zoom-ins reach, no event changes it (a zoom-out gives
    +infinity again) and the pan keys no longer move a finite offset, the
    pan step being [0.1f / zoom = 0]. *)
Theorem infinite_zoom_is_final :
  forall (abi : long_double) (evs : list event) (q : bool) (st : state),
    zoom st = S754_infinity false ->
    zoom (snd (events abi evs (q, st))) = S754_infinity false /\
    (forall s m e, offsetX st = S754_finite s m e ->
                   offsetX (snd (events abi evs (q, st))) = offsetX st) /\
    (forall s m e, offsetY st = S754_finite s m e ->
                   offsetY (snd (events abi evs (q, st))) = offsetY st).
Proof.
  intros abi evs q st Hz. rewrite events_keys. cbn [snd].
  apply keys_infinite_zoom. exact Hz.
Qed.

Lemma zoomed_in_zoom : zoom (zoomed_in []) = S754_infinity false.
Proof. vm_compute. reflexivity. Qed.

Lemma infinite_zoom_is_final_witness :
  zoom (snd (events X87 [SDL_KEYDOWN SDLK_q; SDL_KEYDOWN SDLK_a] (false, zoomed_in [])))
  = S754_infinity false.
Proof.
  apply (infinite_zoom_is_final X87 [SDL_KEYDOWN SDLK_q; SDL_KEYDOWN SDLK_a] false
           (zoomed_in [])).
  apply zoomed_in_zoom.
Defined.

(** X16. A NaN offset is final. Once [offsetX] or [offsetY] is a NaN,
    which repeated zoom-outs followed by a pan to the right and a pan to the
    left reach (the pan step overflows to +infinity, and infinity minus
    infinity is a NaN), no event changes it, and every work-item of every
    later generation runs to the bound, on either kind of device: its
    counter is [MAX_ITER]. *)
Theorem nan_offset_is_final :
  forall (abi : long_double) (evs : list event) (q : bool) (st : state),
    offsetX st = S754_nan \/ offsetY st = S754_nan ->
    let st' := snd (events abi evs (q, st)) in
    (offsetX st' = S754_nan \/ offsetY st' = S754_nan) /\
    forall (dev : bool) (x y : Z),
      Kernel.mandelbrot_iter dev x y WIDTH HEIGHT (offsetX st') (offsetY st') (zoom st')
        MAX_ITER = Some MAX_ITER.
Proof.
  intros abi evs q st Hnan st'. subst st'. rewrite events_keys. cbn [snd].
  destruct (keys_nan_offset abi (key_presses evs) st) as [Hx Hy].
  assert (H : offsetX (keys abi (key_presses evs) st) = S754_nan \/
              offsetY (keys abi (key_presses evs) st) = S754_nan)
    by (destruct Hnan; [left | right]; auto).
  split; [exact H|]. intros dev x y.
  apply nan_runs_to_bound; [unfold MAX_ITER; lia|].
  destruct H; [left | right; left]; assumption.
Qed.

Lemma zoomed_out_and_panned_offset : offsetX (zoomed_out_and_panned []) = S754_nan.
Proof. vm_compute. reflexivity. Qed.

Lemma nan_offset_is_final_witness :
  let st' := snd (events X87 [SDL_KEYDOWN SDLK_w; SDL_KEYDOWN SDLK_e]
                    (false, zoomed_out_and_panned [])) in
  (offsetX st' = S754_nan \/ offsetY st' = S754_nan) /\
  forall (dev : bool) (x y : Z),
    Kernel.mandelbrot_iter dev x y WIDTH HEIGHT (offsetX st') (offsetY st') (zoom st')
      MAX_ITER = Some MAX_ITER.
Proof.
  apply (nan_offset_is_final X87 [SDL_KEYDOWN SDLK_w; SDL_KEYDOWN SDLK_e] false
           (zoomed_out_and_panned [])).
  left. apply zoomed_out_and_panned_offset.
Defined.

(** ** The frame at an infinite zoom *)

Lemma small_int_times_zero (k : Z) :
  -400 <= k < 400 ->
  exists s, IEEE.mul IEEE.binary32 (IEEE.of_Z IEEE.binary32 k) (S754_zero false) = S754_zero s.
Proof.
  intros Hk.
  assert (Hall : forallb (fun k => match IEEE.mul IEEE.binary32 (IEEE.of_Z IEEE.binary32 k)
                                           (S754_zero false) with
                                   | S754_zero _ => true
                                   | _ => false
                                   end) (seqZ (-400) 800) = true)
    by (vm_compute; reflexivity).
  rewrite forallb_forall in Hall.
  specialize (Hall k ltac:(apply list_elem_of_In, elem_of_seqZ; lia)).
  destruct (IEEE.mul _ _ _) as [s| | |]; try discriminate. eauto.
Qed.

(** At an infinite zoom the scale is zero and every pixel is mapped to the
    offset itself. *)
Lemma coordinates_at_infinite_zoom (dev : bool) (x y : Z) (sx sy : bool) (mx my : positive)
    (ex ey : Z) :
  0 <= x < WIDTH -> 0 <= y < HEIGHT ->
  Kernel.cx_of dev x WIDTH (S754_finite sx mx ex) (S754_infinity false) = S754_finite sx mx ex /\
  Kernel.cy_of dev y HEIGHT (S754_finite sy my ey) (S754_infinity false) = S754_finite sy my ey.
Proof.
  intros Hx Hy. unfold Kernel.cx_of, Kernel.cy_of, Kernel.coord.
  replace (Kernel.scale dev (Kernel.lit_3_5 dev) WIDTH (S754_infinity false))
    with (S754_zero false) by (destruct dev; reflexivity).
  replace (Kernel.scale dev (Kernel.lit_2_0 dev) HEIGHT (S754_infinity false))
    with (S754_zero false) by (destruct dev; reflexivity).
  destruct (small_int_times_zero (x - Z.quot WIDTH 2)) as [s ->];
    [change (Z.quot WIDTH 2) with 400; unfold WIDTH in Hx; lia|].
  destruct (small_int_times_zero (y - Z.quot HEIGHT 2)) as [s' ->];
    [change (Z.quot HEIGHT 2) with 300; unfold HEIGHT in Hy; lia|].
  split; reflexivity.
Qed.

(** X17. At an infinite zoom the frame is uniform: with [zoom] +infinity
    and finite offsets, every work-item iterates the same coordinate
    [(offsetX, offsetY)], all counters are equal, and a generation paints
    every pixel of the raster with one and the same colour. *)
Theorem frame_at_infinite_zoom_is_uniform :
  forall (d : dispatch) (st : state) (img : list Z)
         (sx sy : bool) (mx my : positive) (ex ey : Z),
    well_formed d ->
    Z.of_nat (length (colorTable st)) = MAX_ITER + 1 ->
    Z.of_nat (length img) = WIDTH * HEIGHT * 3 ->
    zoom st = S754_infinity false ->
    offsetX st = S754_finite sx mx ex ->
    offsetY st = S754_finite sy my ey ->
    exists img' n c,
      generateMandelbrot d st img = Some img' /\
      forall x y, 0 <= x < WIDTH -> 0 <= y < HEIGHT ->
        Kernel.cx_of (fp64 d) x WIDTH (offsetX st) (zoom st) = offsetX st /\
        Kernel.cy_of (fp64 d) y HEIGHT (offsetY st) (zoom st) = offsetY st /\
        Kernel.mandelbrot_iter (fp64 d) x y WIDTH HEIGHT
          (offsetX st) (offsetY st) (zoom st) MAX_ITER = Some n /\
        pixel_at img' x y = Some c.
Proof.
  intros d st img sx sy mx my ex ey Hd Htbl Himg Hz Hox Hoy.
  destruct (generateMandelbrot_spec d st img Hd) as (img' & Hgen & _ & Hpix);
    [unfold MAX_ITER in Htbl; lia | exact Himg |].
  destruct (Hpix 0 0) as (n & c & Hn & _ & Hc & _); [unfold WIDTH; lia | unfold HEIGHT; lia |].
  exists img', n, c. split; [exact Hgen|].
  intros x y Hx Hy.
  destruct (coordinates_at_infinite_zoom (fp64 d) x y sx sy mx my ex ey Hx Hy) as [Hcx Hcy].
  destruct (coordinates_at_infinite_zoom (fp64 d) 0 0 sx sy mx my ex ey) as [Hcx0 Hcy0];
    [unfold WIDTH; lia | unfold HEIGHT; lia |].
  rewrite Hz, Hox, Hoy in *.
  assert (Hsame : Kernel.mandelbrot_iter (fp64 d) x y WIDTH HEIGHT
                    (S754_finite sx mx ex) (S754_finite sy my ey) (S754_infinity false) MAX_ITER
                  = Some n).
  { rewrite <- Hn. unfold Kernel.mandelbrot_iter. rewrite Hcx, Hcy, Hcx0, Hcy0. reflexivity. }
  split; [exact Hcx|]. split; [exact Hcy|]. split; [exact Hsame|].
  destruct (Hpix x y Hx Hy) as (n' & c' & Hn' & _ & Hc' & Hp).
  rewrite Hsame in Hn'. injection Hn' as <-. congruence.
Qed.

Lemma frame_at_infinite_zoom_is_uniform_witness :
  exists img' n c,
    generateMandelbrot (dispatch0 true)
      (set_zoom (S754_infinity false) (initial (palette X87)))
      (image (initial (palette X87))) = Some img' /\
    forall x y, 0 <= x < WIDTH -> 0 <= y < HEIGHT ->
      Kernel.cx_of true x WIDTH offsetX0 (S754_infinity false) = offsetX0 /\
      Kernel.cy_of true y HEIGHT offsetY0 (S754_infinity false) = offsetY0 /\
      Kernel.mandelbrot_iter true x y WIDTH HEIGHT offsetX0 offsetY0 (S754_infinity false)
        MAX_ITER = Some n /\
      pixel_at img' x y = Some c.
Proof.
  apply (frame_at_infinite_zoom_is_uniform (dispatch0 true)
           (set_zoom (S754_infinity false) (initial (palette X87)))
           (image (initial (palette X87)))
           true true 11843416 8980912 (-24) (-25)).
  - apply dispatch0_well_formed.
  - apply palette_length.
  - apply initial_image_length.
  - reflexivity.
  - reflexivity.
  - reflexivity.
Defined.
